(** * COLO proxy (net/colo-proxy.c): connection tracking, framing and lifecycle

    A shallow embedding of the COLO network proxy filter.  The C functions
    become functions in a small state monad over a [World] that holds the
    file-scope globals of colo-proxy.c, the registered net filters, the byte
    streams behind the socket descriptors and the trace of calls made to the
    host (socket layer, event loop, threads).

    Integers are [Z] with the C conversions written out; buffers are lists of
    [byte]; the length prefix of a frame is the in-memory image of an
    [ssize_t] (eight bytes, least significant first, on the LP64
    little-endian hosts the proxy runs on). *)

From Stdlib Require Import String Ascii.
From Stdlib Require Import ZArith List Bool Lia FunctionalExtensionality.
From coqutil Require Import Byte Word.LittleEndianList.
Import ListNotations.
Local Open Scope Z_scope.

(** ** Machine integers *)

(** Conversion to [size_t] (64 bits, unsigned). *)
Definition to_size_t (z : Z) : Z := z mod 2 ^ 64.

(** Conversion to [ssize_t] (64 bits, two's complement). *)
Definition to_ssize_t (z : Z) : Z :=
  let u := z mod 2 ^ 64 in
  if u <? 2 ^ 63 then u else u - 2 ^ 64.

(** [sizeof(ssize_t)] in bytes. *)
Definition sizeof_ssize_t : nat := 8.

(** The bytes of an [ssize_t] object holding [z]. *)
Definition ssize_t_bytes (z : Z) : list byte := le_split sizeof_ssize_t z.

(** The value of an [ssize_t] object made of the bytes [bs]. *)
Definition ssize_t_value (bs : list byte) : Z := to_ssize_t (le_combine bs).

(** [errno] value of an interrupted system call. *)
Definition EINTR : Z := 4.

(** ** Data model *)

(** [typedef struct ConnectionKey]: the packed 5-tuple.  The fields are
    the unsigned values stored in the struct. *)
Record ConnectionKey := {
  src : Z;
  dst : Z;
  src_port : Z;
  dst_port : Z;
  ip_proto : Z
}.

(** [connection_key_equal]: [memcmp] over the packed struct is zero exactly
    when the five stored fields agree. *)
Definition connection_key_equal (k1 k2 : ConnectionKey) : bool :=
  (src k1 =? src k2) && (dst k1 =? dst k2) &&
  (src_port k1 =? src_port k2) && (dst_port k1 =? dst_port k2) &&
  (ip_proto k1 =? ip_proto k2).

(** [typedef struct Packet]: the owned buffer, the offsets of the network
    and transport headers inside it, its size and the sending client. *)
Record Packet := {
  data : list byte;
  network_layer : Z;
  transport_layer : Z;
  size : Z;
  sender : Z
}.

(** [typedef struct Connection]. *)
Record Connection := {
  primary_list : list Packet;
  secondary_list : list Packet;
  processing : bool;
  conn_ip_proto : Z
}.

(** The anonymous enum of proxy states. *)
Inductive ProxyStatus :=
| COLO_PROXY_NONE
| COLO_PROXY_RUNNING
| COLO_PROXY_DONE.

(** Modelled from the spec: the QAPI type [COLOMode] is declared outside
    colo-proxy.c; section 6 fixes "exactly two modes, Primary and
    Secondary". *)
Inductive COLOMode :=
| COLO_MODE_PRIMARY
| COLO_MODE_SECONDARY.

(** The QAPI type [NetFilterDirection] of net/filter.h. *)
Inductive NetFilterDirection :=
| NET_FILTER_DIRECTION_ALL
| NET_FILTER_DIRECTION_RX
| NET_FILTER_DIRECTION_TX.

Definition status_eqb (a b : ProxyStatus) : bool :=
  match a, b with
  | COLO_PROXY_NONE, COLO_PROXY_NONE
  | COLO_PROXY_RUNNING, COLO_PROXY_RUNNING
  | COLO_PROXY_DONE, COLO_PROXY_DONE => true
  | _, _ => false
  end.

Definition mode_eqb (a b : COLOMode) : bool :=
  match a, b with
  | COLO_MODE_PRIMARY, COLO_MODE_PRIMARY
  | COLO_MODE_SECONDARY, COLO_MODE_SECONDARY => true
  | _, _ => false
  end.

Definition direction_eqb (a b : NetFilterDirection) : bool :=
  match a, b with
  | NET_FILTER_DIRECTION_ALL, NET_FILTER_DIRECTION_ALL
  | NET_FILTER_DIRECTION_RX, NET_FILTER_DIRECTION_RX
  | NET_FILTER_DIRECTION_TX, NET_FILTER_DIRECTION_TX => true
  | _, _ => false
  end.

Definition TYPE_FILTER_COLO_PROXY : string := "colo-proxy".

(** [typedef struct COLOProxyState], together with the fields of the parent
    [NetFilterState] that the file reads ([typename], [netdev_id],
    [direction]).  [conn_list] names its connections by key; an event is
    [None] before [qemu_event_init] and after [qemu_event_destroy]; [thread]
    holds the name of the compare thread once it is created. *)
Record COLOProxyState := {
  typename : string;
  netdev_id : string;
  direction : NetFilterDirection;
  incoming_queue : bool;
  colo_mode : COLOMode;
  addr : option string;
  sockfd : Z;
  conn_list : list ConnectionKey;
  status : ProxyStatus;
  hashtable_size : Z;
  need_compare_ev : option bool;
  thread : option string
}.

Definition set_sockfd (fd : Z) (s : COLOProxyState) : COLOProxyState :=
  {| typename := typename s; netdev_id := netdev_id s;
     direction := direction s; incoming_queue := incoming_queue s;
     colo_mode := colo_mode s; addr := addr s; sockfd := fd;
     conn_list := conn_list s; status := status s;
     hashtable_size := hashtable_size s;
     need_compare_ev := need_compare_ev s; thread := thread s |}.

Definition set_status (st : ProxyStatus) (s : COLOProxyState) : COLOProxyState :=
  {| typename := typename s; netdev_id := netdev_id s;
     direction := direction s; incoming_queue := incoming_queue s;
     colo_mode := colo_mode s; addr := addr s; sockfd := sockfd s;
     conn_list := conn_list s; status := st;
     hashtable_size := hashtable_size s;
     need_compare_ev := need_compare_ev s; thread := thread s |}.

Definition set_need_compare_ev (e : option bool) (s : COLOProxyState) : COLOProxyState :=
  {| typename := typename s; netdev_id := netdev_id s;
     direction := direction s; incoming_queue := incoming_queue s;
     colo_mode := colo_mode s; addr := addr s; sockfd := sockfd s;
     conn_list := conn_list s; status := status s;
     hashtable_size := hashtable_size s;
     need_compare_ev := e; thread := thread s |}.

Definition set_thread (t : option string) (s : COLOProxyState) : COLOProxyState :=
  {| typename := typename s; netdev_id := netdev_id s;
     direction := direction s; incoming_queue := incoming_queue s;
     colo_mode := colo_mode s; addr := addr s; sockfd := sockfd s;
     conn_list := conn_list s; status := status s;
     hashtable_size := hashtable_size s;
     need_compare_ev := need_compare_ev s; thread := t |}.

(** Calls that leave colo-proxy.c, in the order they are made.
    [CallErrorReportStrerror fmt err] is [error_report(fmt, strerror(err))]:
    the format with its one [%s] and the error number whose text fills it. *)
Inductive Event :=
| CallInetConnect (a : option string) (ret : Z)
| CallInetListen (a : option string) (ret : Z)
| CallQemuAccept (fd ret err : Z)
| CallCloseSocket (fd : Z)
| CallClose (fd : Z)
| CallSetFdHandler (fd : Z) (io_read : bool)
| CallThreadCreate (name : string)
| CallThreadJoin (name : option string)
| CallEventInit
| CallEventSet
| CallEventDestroy
| CallErrorReport (msg : string)
| CallErrorReportStrerror (fmt : string) (err : Z)
| CallGMalloc0 (n : Z)
| CallNetQueueSend (buf : list byte) (len : Z)
| CallPrimaryCheckpoint
| CallSecondaryCheckpoint
| CallPassThrough (buf : list byte) (len : Z)
| CallPacketDestroy (p : Packet).

(** What the host answers: the descriptor (or a negative value) returned by
    [inet_connect] and [inet_listen] for an address, the successive
    (return value, errno) pairs of [qemu_accept] on a listening descriptor,
    and whether the connection behind a descriptor is alive. *)
Record Host := {
  host_connect : option string -> Z;
  host_listen : option string -> Z;
  host_accept : Z -> list (Z * Z);
  link_up : Z -> bool
}.

(** The state the functions of colo-proxy.c run in: the three file-scope
    globals, the net filters of the machine, the host, the bytes readable
    from and written to each descriptor, and the trace of calls. *)
Record World := {
  colo_conn_hash : list (ConnectionKey * Connection);
  colo_do_checkpoint : bool;
  hashtable_max_size : Z;
  net_filters : list COLOProxyState;
  host : Host;
  sock_rx : Z -> list byte;
  sock_tx : Z -> list byte;
  trace : list Event
}.

Definition set_conn_hash (h : list (ConnectionKey * Connection)) (w : World) : World :=
  {| colo_conn_hash := h; colo_do_checkpoint := colo_do_checkpoint w;
     hashtable_max_size := hashtable_max_size w; net_filters := net_filters w;
     host := host w; sock_rx := sock_rx w; sock_tx := sock_tx w;
     trace := trace w |}.

Definition set_do_checkpoint (b : bool) (w : World) : World :=
  {| colo_conn_hash := colo_conn_hash w; colo_do_checkpoint := b;
     hashtable_max_size := hashtable_max_size w; net_filters := net_filters w;
     host := host w; sock_rx := sock_rx w; sock_tx := sock_tx w;
     trace := trace w |}.

Definition set_net_filters (l : list COLOProxyState) (w : World) : World :=
  {| colo_conn_hash := colo_conn_hash w;
     colo_do_checkpoint := colo_do_checkpoint w;
     hashtable_max_size := hashtable_max_size w; net_filters := l;
     host := host w; sock_rx := sock_rx w; sock_tx := sock_tx w;
     trace := trace w |}.

Definition set_sock_rx (f : Z -> list byte) (w : World) : World :=
  {| colo_conn_hash := colo_conn_hash w;
     colo_do_checkpoint := colo_do_checkpoint w;
     hashtable_max_size := hashtable_max_size w; net_filters := net_filters w;
     host := host w; sock_rx := f; sock_tx := sock_tx w;
     trace := trace w |}.

Definition set_sock_tx (f : Z -> list byte) (w : World) : World :=
  {| colo_conn_hash := colo_conn_hash w;
     colo_do_checkpoint := colo_do_checkpoint w;
     hashtable_max_size := hashtable_max_size w; net_filters := net_filters w;
     host := host w; sock_rx := sock_rx w; sock_tx := f;
     trace := trace w |}.

Definition set_trace (t : list Event) (w : World) : World :=
  {| colo_conn_hash := colo_conn_hash w;
     colo_do_checkpoint := colo_do_checkpoint w;
     hashtable_max_size := hashtable_max_size w; net_filters := net_filters w;
     host := host w; sock_rx := sock_rx w; sock_tx := sock_tx w;
     trace := t |}.

(** Point update of a per-descriptor stream. *)
Definition upd (f : Z -> list byte) (fd : Z) (v : list byte) : Z -> list byte :=
  fun fd' => if fd' =? fd then v else f fd'.

(** ** The monad of the embedding *)

(** A call returns a value, dies on a failed [assert], or never returns
    (a blocking system call that is never answered). *)
Inductive Outcome (A : Type) :=
| Returns (a : A) (w : World)
| AssertionFailed (w : World)
| Blocked (w : World).
Arguments Returns {A} a w.
Arguments AssertionFailed {A} w.
Arguments Blocked {A} w.

Definition M (A : Type) : Type := World -> Outcome A.

Definition ret {A} (a : A) : M A := fun w => Returns a w.

Definition bind {A B} (m : M A) (k : A -> M B) : M B :=
  fun w =>
    match m w with
    | Returns a w' => k a w'
    | AssertionFailed w' => AssertionFailed w'
    | Blocked w' => Blocked w'
    end.

Notation "x <- m ;; k" := (bind m (fun x => k))
  (at level 61, m at next level, right associativity).
Notation "' pat <- m ;; k" := (bind m (fun x => match x with pat => k end))
  (at level 61, pat pattern, m at next level, right associativity).
Notation "m ;;; k" := (bind m (fun _ => k))
  (at level 61, right associativity).

(** The world an outcome ends in. *)
Definition outcome_world {A} (o : Outcome A) : World :=
  match o with
  | Returns _ w => w
  | AssertionFailed w => w
  | Blocked w => w
  end.

Definition call (e : Event) : M unit :=
  fun w => Returns tt (set_trace (trace w ++ [e]) w).

Definition assert (b : bool) : M unit :=
  fun w => if b then Returns tt w else AssertionFailed w.

(** ** Host functions used by the file *)

(** [iov_size] of qemu/iov.h: the sum of the segment lengths, in [size_t]. *)
Definition iov_size (iov : list (list byte)) : Z :=
  to_size_t (Z.of_nat (length (concat iov))).

(** Modelled from the spec: [iov_send] of qemu/iov.h is not part of
    colo-proxy.c.  Section 4.3 has "a single connection-oriented duplex
    channel" whose loss is fatal: on a live descriptor the [bytes] bytes
    from [offset] are all written and their count is returned; on a dead or
    invalid one nothing is written and the result is negative. *)
Definition iov_send (fd : Z) (iov : list (list byte)) (offset bytes : Z) : M Z :=
  fun w =>
    let buf := firstn (Z.to_nat (to_size_t bytes))
                      (skipn (Z.to_nat offset) (concat iov)) in
    if (0 <=? fd) && link_up (host w) fd
    then Returns (Z.of_nat (length buf))
                 (set_sock_tx (upd (sock_tx w) fd (sock_tx w fd ++ buf)) w)
    else Returns (-1) w.

(** Modelled from the spec: [iov_recv] of qemu/iov.h is not part of
    colo-proxy.c.  It reads up to [bytes] bytes of the stream into the front
    of the buffer [buf] and leaves the rest of [buf] as it was; fewer bytes
    arrive when the stream ends first, none on an invalid descriptor. *)
Definition iov_recv (fd : Z) (buf : list byte) (bytes : Z) : M (Z * list byte) :=
  fun w =>
    if 0 <=? fd
    then
      let got := firstn (Z.to_nat (to_size_t bytes)) (sock_rx w fd) in
      Returns (Z.of_nat (length got), got ++ skipn (length got) buf)
              (set_sock_rx (upd (sock_rx w) fd
                 (skipn (Z.to_nat (to_size_t bytes)) (sock_rx w fd))) w)
    else Returns (-1, buf) w.

(** [g_malloc0]: a zeroed buffer of [n] bytes. *)
Definition g_malloc0 (n : Z) : M (list byte) :=
  call (CallGMalloc0 n) ;;; ret (repeat Byte.x00 (Z.to_nat n)).

(** What colo-proxy.c takes from elsewhere without the file fixing it: the
    macro [NET_BUFSIZE] of net/net.h, and the three pluggable parts the
    design leaves open, namely the classifier of section 4.2 (offsets of
    the network and transport headers and the flow key of a buffer, or
    nothing for a buffer it cannot classify), the packet comparator of
    section 4.4 and the per-flow queue-depth limit of section 4.4. *)
Class Externals := {
  NET_BUFSIZE : Z;
  parse_packet : list byte -> Z -> option (Z * Z * ConnectionKey);
  packet_equal : Packet -> Packet -> bool;
  queue_depth_limit : Z
}.

Section Proxy.
Context {ext : Externals}.

(** ** The registry *)

(** Modelled from the spec: the table [colo_conn_hash] is created in
    [colo_proxy_setup] with [connection_key_equal] as its key equality, but
    nothing in colo-proxy.c reads or fills it.  Section 4.1: "equality is
    exact byte-for-byte key comparison"; the flows are kept in order of
    creation. *)
Fixpoint registry_lookup (k : ConnectionKey)
    (r : list (ConnectionKey * Connection)) : option Connection :=
  match r with
  | [] => None
  | (k', c) :: r' =>
      if connection_key_equal k' k then Some c else registry_lookup k r'
  end.

(** Modelled from the spec: replace the Connection stored under [k]
    (section 3: "a given ConnectionKey maps to at most one live
    Connection"). *)
Fixpoint registry_store (k : ConnectionKey) (c : Connection)
    (r : list (ConnectionKey * Connection)) : list (ConnectionKey * Connection) :=
  match r with
  | [] => []
  | (k', c') :: r' =>
      if connection_key_equal k' k then (k', c) :: r'
      else (k', c') :: registry_store k c r'
  end.

Definition registry_size (r : list (ConnectionKey * Connection)) : Z :=
  Z.of_nat (length r).

(** Modelled from the spec: the constructor of a Connection is not part of
    colo-proxy.c.  Section 4.1: "creation allocates a new Connection with
    empty queues and processing=false". *)
Definition connection_new (k : ConnectionKey) : Connection :=
  {| primary_list := []; secondary_list := []; processing := false;
     conn_ip_proto := ip_proto k |}.

(** Modelled from the spec: [connection_destroy], the value destructor
    handed to [g_hash_table_new_full], is not part of colo-proxy.c.
    Section 4.1: "removal drains both queues, releasing owned Packets,
    before freeing the Connection". *)
Definition connection_destroy (c : Connection) : M unit :=
  fun w =>
    Returns tt (set_trace (trace w ++ map CallPacketDestroy
                             (primary_list c ++ secondary_list c)) w).

(** Modelled from the spec: the eviction of section 4.1 is not part of
    colo-proxy.c.  The table keeps its flows in order of creation and the
    documented policy is to evict the oldest one. *)
Definition registry_evict : M unit :=
  fun w =>
    match colo_conn_hash w with
    | [] => Returns tt w
    | (_, c0) :: rest => connection_destroy c0 (set_conn_hash rest w)
    end.

(** Modelled from the spec: [lookup_or_create] of section 4.1 is not part
    of colo-proxy.c.  A known key yields its Connection; for a new key,
    "when size() == bound ... the registry must apply a documented eviction
    policy before insertion", and then the new Connection is created.
    The section words no other case: a table that is at its bound while it
    is empty (a bound of 0) has no flow to evict, and the insertion follows
    ("rather than fail the packet path"). *)
Definition lookup_or_create (k : ConnectionKey) : M Connection :=
  fun w =>
    match registry_lookup k (colo_conn_hash w) with
    | Some c => Returns c w
    | None =>
        ((if registry_size (colo_conn_hash w) =? hashtable_max_size w
          then registry_evict else ret tt) ;;;
         (fun w' =>
            Returns (connection_new k)
              (set_conn_hash (colo_conn_hash w' ++ [(k, connection_new k)]) w'))) w
    end.

(** ** colo-proxy.c *)

(** [colo_proxy_query_checkpoint]. *)
Definition colo_proxy_query_checkpoint : M bool :=
  fun w => Returns (colo_do_checkpoint w) w.

(** [colo_proxy_notify_checkpoint]. *)
Definition colo_proxy_notify_checkpoint : M unit :=
  fun w => Returns tt (set_do_checkpoint true w).

(** [colo_proxy_sock_send]: the size of the payload, then the payload. *)
Definition colo_proxy_sock_send (s : COLOProxyState) (iov : list (list byte))
    : M (COLOProxyState * Z) :=
  let size := to_ssize_t (iov_size iov) in
  if size =? 0 then ret (s, 0)
  else
    r <- iov_send (sockfd s) [ssize_t_bytes size] 0 (Z.of_nat sizeof_ssize_t) ;;
    if r <? 0 then ret (s, r)
    else
      r <- iov_send (sockfd s) iov 0 size ;;
      ret (s, r).

(** Modelled from the spec: [colo_proxy_enqueue_secondary_packet] is called
    by colo-proxy.c but not defined in it.  Section 4.3: "an incoming frame
    is delivered to the Registry as a secondary-origin Packet and queued on
    that flow's secondary_list, then the Comparison Task is woken"; section
    4.2: a buffer that cannot be classified is passed through "without
    placing [it] into any flow". *)
Definition colo_proxy_enqueue_secondary_packet (s : COLOProxyState)
    (buf : list byte) (len : Z) : M COLOProxyState :=
  match parse_packet buf len with
  | None => call (CallPassThrough buf len) ;;; ret s
  | Some (nl, tl, key) =>
      c <- lookup_or_create key ;;
      let pkt := {| data := buf; network_layer := nl; transport_layer := tl;
                    size := len; sender := -1 |} in
      let c' := {| primary_list := primary_list c;
                   secondary_list := secondary_list c ++ [pkt];
                   processing := true;
                   conn_ip_proto := conn_ip_proto c |} in
      (fun w => Returns tt (set_conn_hash (registry_store key c' (colo_conn_hash w)) w)) ;;;
      call CallEventSet ;;;
      ret (set_need_compare_ev (Some true) s)
  end.

(** [qemu_net_queue_send] on the incoming queue of the filter. *)
Definition qemu_net_queue_send (buf : list byte) (len : Z) : M unit :=
  call (CallNetQueueSend buf len).

(** Lines 228-234 of [colo_proxy_sock_receive]: what becomes of a payload
    that was read. *)
Definition sock_receive_deliver (s : COLOProxyState) (buf : list byte) (len : Z)
    : M COLOProxyState :=
  if mode_eqb (colo_mode s) COLO_MODE_PRIMARY
  then colo_proxy_enqueue_secondary_packet s buf len
  else qemu_net_queue_send buf len ;;; ret s.

(** [colo_proxy_sock_receive]: [len] starts as zero and is overwritten by
    what [iov_recv] reads; both return values of [iov_recv] are ignored. *)
Definition colo_proxy_sock_receive (s : COLOProxyState) : M COLOProxyState :=
  '(_, lenbytes) <- iov_recv (sockfd s) (ssize_t_bytes 0) (Z.of_nat sizeof_ssize_t) ;;
  let len := ssize_t_value lenbytes in
  if (0 <? len) && (len <? NET_BUFSIZE)
  then
    buf <- g_malloc0 len ;;
    '(_, buf) <- iov_recv (sockfd s) buf len ;;
    sock_receive_deliver s buf len
  else ret s.

(** [colo_proxy_receive_iov].  The two mode handlers are empty. *)
Definition colo_proxy_receive_iov (s : COLOProxyState) (sender flags : Z)
    (iov : list (list byte)) (sent_cb : option Z) : M (COLOProxyState * Z) :=
  if negb (status_eqb (status s) COLO_PROXY_RUNNING)
  then ret (s, 0)
  else
    (if mode_eqb (colo_mode s) COLO_MODE_PRIMARY then ret tt else ret tt) ;;;
    ret (s, to_ssize_t (iov_size iov)).

(** [colo_proxy_cleanup]. *)
Definition colo_proxy_cleanup (s : COLOProxyState) : M COLOProxyState :=
  call (CallClose (sockfd s)) ;;;
  let s := set_sockfd (-1) s in
  call CallEventDestroy ;;;
  ret (set_need_compare_ev None s).

(** The [do ... while] of [colo_wait_incoming] over the answers the host
    has for [qemu_accept]; with no conclusive answer the call blocks. *)
Fixpoint accept_retry (fd : Z) (answers : list (Z * Z)) : M (Z * Z) :=
  match answers with
  | [] => fun w => Blocked w
  | (accept_sock, err) :: rest =>
      call (CallQemuAccept fd accept_sock err) ;;;
      if (accept_sock <? 0) && (err =? EINTR)
      then accept_retry fd rest
      else ret (accept_sock, err)
  end.

(** [colo_wait_incoming]. *)
Definition colo_wait_incoming (s : COLOProxyState) : M (COLOProxyState * Z) :=
  fd <- (fun w => Returns (host_listen (host w) (addr s)) w) ;;
  call (CallInetListen (addr s) fd) ;;;
  if fd <? 0
  then call (CallErrorReport "colo proxy listen failed") ;;; ret (s, -1)
  else
    '(accept_sock, err) <- (fun w => accept_retry fd (host_accept (host w) fd) w) ;;
    call (CallCloseSocket fd) ;;;
    if accept_sock <? 0
    then call (CallErrorReportStrerror "colo proxy accept failed(%s)" err) ;;;
         ret (s, -1)
    else
      let s := set_sockfd accept_sock s in
      call (CallSetFdHandler (sockfd s) true) ;;;
      ret (s, 0).

(** [colo_proxy_connect]. *)
Definition colo_proxy_connect (s : COLOProxyState) : M (COLOProxyState * Z) :=
  sock <- (fun w => Returns (host_connect (host w) (addr s)) w) ;;
  call (CallInetConnect (addr s) sock) ;;;
  if sock <? 0
  then call (CallErrorReport "colo proxy inet_connect failed") ;;; ret (s, -1)
  else
    let s := set_sockfd sock s in
    call (CallSetFdHandler (sockfd s) true) ;;;
    ret (s, 0).

(** [colo_proxy_start_one]; the second component is [*errp]. *)
Definition colo_proxy_start_one (nf : COLOProxyState) (opaque : COLOMode)
    : M (COLOProxyState * option string) :=
  if negb (String.eqb (typename nf) TYPE_FILTER_COLO_PROXY)
  then ret (nf, None)
  else
    let mode := opaque in
    let s := nf in
    assert (mode_eqb (colo_mode s) mode) ;;;
    if mode_eqb (colo_mode s) COLO_MODE_PRIMARY
    then
      '(s, r) <- colo_proxy_connect s ;;
      if negb (r =? 0)
      then ret (s, Some "colo proxy connect failed"%string)
      else
        let s := set_status COLO_PROXY_RUNNING s in
        let thread_name := ("proxy compare " ++ netdev_id nf)%string in
        call (CallThreadCreate thread_name) ;;;
        ret (set_thread (Some thread_name) s, None)
    else
      '(s, r) <- colo_wait_incoming s ;;
      if negb (r =? 0)
      then ret (s, Some "colo proxy wait incoming failed"%string)
      else ret (set_status COLO_PROXY_RUNNING s, None).

(** Modelled from the spec: [qemu_foreach_netfilter] of net/filter.c is not
    part of colo-proxy.c.  It hands each net filter in turn to [func] and
    gives the caller the first error raised (section 7: a start-up failure
    is "reported to the caller synchronously from start"). *)
Fixpoint qemu_foreach_netfilter
    (func : COLOProxyState -> M (COLOProxyState * option string))
    (nfs : list COLOProxyState) : M (list COLOProxyState * option string) :=
  match nfs with
  | [] => ret ([], None)
  | nf :: rest =>
      '(nf', err) <- func nf ;;
      match err with
      | Some e => ret (nf' :: rest, Some e)
      | None =>
          '(rest', err') <- qemu_foreach_netfilter func rest ;;
          ret (nf' :: rest', err')
      end
  end.

(** [colo_proxy_start]. *)
Definition colo_proxy_start (mode : COLOMode) : M Z :=
  fun w =>
    ('(nfs, err) <- qemu_foreach_netfilter
                      (fun nf => colo_proxy_start_one nf mode) (net_filters w) ;;
     fun w' =>
       Returns (match err with Some _ => -1 | None => 0 end)
               (set_net_filters nfs w')) w.

(** [colo_proxy_stop_one].  The two checkpoint helpers are defined outside
    colo-proxy.c and the design says nothing of them: they are recorded as
    calls. *)
Definition colo_proxy_stop_one (nf : COLOProxyState) (opaque : COLOMode)
    : M (COLOProxyState * option string) :=
  if negb (String.eqb (typename nf) TYPE_FILTER_COLO_PROXY)
  then ret (nf, None)
  else
    let s := nf in
    let mode := opaque in
    assert (mode_eqb (colo_mode s) mode) ;;;
    let s := set_status COLO_PROXY_DONE s in
    (if 0 <=? sockfd s
     then call (CallSetFdHandler (sockfd s) false) ;;;
          call (CallCloseSocket (sockfd s))
     else ret tt) ;;;
    if mode_eqb (colo_mode s) COLO_MODE_PRIMARY
    then
      call CallPrimaryCheckpoint ;;;
      call CallEventSet ;;;
      let s := set_need_compare_ev (Some true) s in
      call (CallThreadJoin (thread s)) ;;;
      ret (s, None)
    else
      call CallSecondaryCheckpoint ;;;
      ret (s, None).

(** [colo_proxy_stop]. *)
Definition colo_proxy_stop (mode : COLOMode) : M unit :=
  fun w =>
    ('(nfs, _) <- qemu_foreach_netfilter
                    (fun nf => colo_proxy_stop_one nf mode) (net_filters w) ;;
     fun w' => Returns tt (set_net_filters nfs w')) w.

(** [colo_proxy_setup]; the second component is [*errp]. *)
Definition colo_proxy_setup (nf : COLOProxyState)
    : M (COLOProxyState * option string) :=
  let s := nf in
  match addr s with
  | None => ret (s, Some "filter colo_proxy needs 'addr' property set!"%string)
  | Some _ =>
      if negb (direction_eqb (direction nf) NET_FILTER_DIRECTION_ALL)
      then ret (s, Some ("colo need queue all packet,"
                         ++ "please startup colo-proxy with queue=all"
                         ++ String "010" EmptyString)%string)
      else
        let s :=
          {| typename := typename s; netdev_id := netdev_id s;
             direction := direction s; incoming_queue := true;
             colo_mode := colo_mode s; addr := addr s; sockfd := -1;
             conn_list := []; status := status s; hashtable_size := 0;
             need_compare_ev := Some false; thread := thread s |} in
        (fun w => Returns tt (set_conn_hash [] (set_do_checkpoint false w))) ;;;
        call CallEventInit ;;;
        ret (s, None)
  end.

(** ** The comparison task *)

(** Modelled from the spec: the head-of-queue comparison of section 4.4,
    which colo-proxy.c does not contain.  Matching heads are "dequeued and
    released" together; it stops at the first pair that disagrees, or when
    a queue is empty.  The result is what remains of both queues and
    whether it stopped on a mismatch. *)
Fixpoint compare_heads (p q : list Packet) : list Packet * list Packet * bool :=
  match p, q with
  | hp :: p', hq :: q' =>
      if packet_equal hp hq then compare_heads p' q' else (p, q, true)
  | _, _ => (p, q, false)
  end.

(** Modelled from the spec: the scan of one flow by
    [colo_proxy_compare_thread], which colo-proxy.c names but does not
    define.  Section 4.4: heads are compared "while both are non-empty";
    on a mismatch, or when a queue is deeper than the limit, a checkpoint
    is wanted and the queues stay as they are; "when a flow's queues are
    both empty, processing is cleared". *)
Definition compare_connection (c : Connection) : Connection * bool :=
  let '(p, q, mismatch) := compare_heads (primary_list c) (secondary_list c) in
  let backlog := (queue_depth_limit <? Z.of_nat (length p))
                 || (queue_depth_limit <? Z.of_nat (length q)) in
  ({| primary_list := p; secondary_list := q;
      processing := match p, q with [], [] => false | _, _ => processing c end;
      conn_ip_proto := conn_ip_proto c |},
   mismatch || backlog).

(** Modelled from the spec: the scan over the table, which colo-proxy.c
    does not contain.  Section 4.4: "the task iterates flows marked as
    having pending work (processing=true)". *)
Fixpoint compare_registry (r : list (ConnectionKey * Connection))
    : list (ConnectionKey * Connection) * bool :=
  match r with
  | [] => ([], false)
  | (k, c) :: r' =>
      let '(r'', raised) := compare_registry r' in
      if processing c
      then let '(c', raise) := compare_connection c in
           ((k, c') :: r'', raise || raised)
      else ((k, c) :: r'', raised)
  end.

(** Modelled from the spec: one wake-up of [colo_proxy_compare_thread]
    (section 4.4): scan the pending flows and raise the
    checkpoint-requested flag if one of them asks for it. *)
Definition colo_proxy_compare_scan : M unit :=
  fun w =>
    let '(r, raise) := compare_registry (colo_conn_hash w) in
    (if raise then colo_proxy_notify_checkpoint else ret tt) (set_conn_hash r w).

End Proxy.

(** ** Executions *)

Fixpoint replace_nth {A} (i : nat) (x : A) (l : list A) : list A :=
  match l, i with
  | [], _ => []
  | _ :: l', O => x :: l'
  | y :: l', S i' => y :: replace_nth i' x l'
  end.

(** Run a function of the file on the [i]-th net filter of the machine. *)
Definition on_filter {A} (i : nat)
    (f : COLOProxyState -> M (COLOProxyState * A)) : M unit :=
  fun w =>
    match nth_error (net_filters w) i with
    | None => Returns tt w
    | Some s =>
        ('(s', _) <- f s ;;
         fun w' => Returns tt (set_net_filters (replace_nth i s' (net_filters w')) w')) w
    end.

(** The operations of the engine: the entry points of colo-proxy.c, the
    socket handler, and one wake-up of the comparison task. *)
Inductive Op :=
| OpQueryCheckpoint
| OpSetup (i : nat)
| OpCleanup (i : nat)
| OpStart (mode : COLOMode)
| OpStop (mode : COLOMode)
| OpSockSend (i : nat) (iov : list (list byte))
| OpSockReceive (i : nat)
| OpReceiveIov (i : nat) (sender flags : Z) (iov : list (list byte)) (sent_cb : option Z)
| OpCompareScan.

Definition is_setup (op : Op) : bool :=
  match op with OpSetup _ => true | _ => false end.

Definition run_op {ext : Externals} (op : Op) : M unit :=
  match op with
  | OpQueryCheckpoint => colo_proxy_query_checkpoint ;;; ret tt
  | OpSetup i => on_filter i colo_proxy_setup
  | OpCleanup i => on_filter i (fun s => s' <- colo_proxy_cleanup s ;; ret (s', tt))
  | OpStart mode => colo_proxy_start mode ;;; ret tt
  | OpStop mode => colo_proxy_stop mode
  | OpSockSend i iov => on_filter i (fun s => colo_proxy_sock_send s iov)
  | OpSockReceive i => on_filter i (fun s => s' <- colo_proxy_sock_receive s ;; ret (s', tt))
  | OpReceiveIov i sender flags iov sent_cb =>
      on_filter i (fun s => colo_proxy_receive_iov s sender flags iov sent_cb)
  | OpCompareScan => colo_proxy_compare_scan
  end.

(** Whether a buffer sits in some queue of some flow of the table. *)
Definition packet_queued (buf : list byte)
    (r : list (ConnectionKey * Connection)) : bool :=
  existsb (fun kc =>
             existsb (fun p => if list_eq_dec Byte.byte_eq_dec (data p) buf
                               then true else false)
                     (primary_list (snd kc) ++ secondary_list (snd kc))) r.

(** What the [do ... while] of [colo_wait_incoming] ends with, and the calls
    to [qemu_accept] it makes, for a list of answers of the host. *)
Fixpoint accept_result (answers : list (Z * Z)) : option (Z * Z) :=
  match answers with
  | [] => None
  | (accept_sock, err) :: rest =>
      if (accept_sock <? 0) && (err =? EINTR)
      then accept_result rest else Some (accept_sock, err)
  end.

Fixpoint accept_calls (fd : Z) (answers : list (Z * Z)) : list Event :=
  match answers with
  | [] => []
  | (accept_sock, err) :: rest =>
      CallQemuAccept fd accept_sock err ::
      (if (accept_sock <? 0) && (err =? EINTR)
       then accept_calls fd rest else [])
  end.


(** A net filter of another type than colo-proxy. *)
Definition other_filter (nf : COLOProxyState) : Prop :=
  String.eqb (typename nf) TYPE_FILTER_COLO_PROXY = false.


(** An execution: operations run one after the other. *)
Fixpoint run_ops {ext : Externals} (ops : list Op) (w : World) : World :=
  match ops with
  | [] => w
  | op :: ops' => run_ops ops' (outcome_world (run_op op w))
  end.

Definition is_net_queue_send (e : Event) : bool :=
  match e with CallNetQueueSend _ _ => true | _ => false end.


(** An operation keeps [P] when every world it can end in satisfies [P]
    if the world it starts in does. *)
Definition keeps {A} (P : World -> Prop) (m : M A) : Prop :=
  forall w, P w -> P (outcome_world (m w)).

(** The checkpoint-requested flag is raised. *)
Definition flag_set (w : World) : Prop := colo_do_checkpoint w = true.

(** ** A concrete machine *)

(** A classifier that keys a buffer by its first byte as a TCP flow. *)
Definition first_byte_classifier (buf : list byte) (len : Z)
    : option (Z * Z * ConnectionKey) :=
  match buf with
  | [] => None
  | b :: _ =>
      Some (14, 34, {| src := byte.unsigned b; dst := 1; src_port := 80;
                       dst_port := 8080; ip_proto := 6 |})
  end.

(** Packets are equal when their bytes are. *)
Definition same_bytes (p q : Packet) : bool :=
  if list_eq_dec Byte.byte_eq_dec (data p) (data q) then true else false.

(** [NET_BUFSIZE] as net/net.h has it, with the classifier and comparator
    above and queues of depth two. *)
Definition lab_externals : Externals :=
  {| NET_BUFSIZE := 4096 + 65536;
     parse_packet := first_byte_classifier;
     packet_equal := same_bytes;
     queue_depth_limit := 2 |}.

(** A host where connecting yields descriptor [connect_fd], listening
    yields descriptor 5, and the first accept is interrupted before the
    second answers [accept_fd]. *)
Definition lab_host (connect_fd accept_fd : Z) : Host :=
  {| host_connect := fun _ => connect_fd;
     host_listen := fun _ => 5;
     host_accept := fun _ => [(-1, EINTR); (accept_fd, 0)];
     link_up := fun _ => true |}.

(** A configured colo-proxy filter on descriptor 7. *)
Definition lab_filter (mode : COLOMode) (st : ProxyStatus) : COLOProxyState :=
  {| typename := "colo-proxy"; netdev_id := "hn0";
     direction := NET_FILTER_DIRECTION_ALL; incoming_queue := true;
     colo_mode := mode; addr := Some "192.168.0.100:12345"%string; sockfd := 7;
     conn_list := []; status := st; hashtable_size := 0;
     need_compare_ev := Some false; thread := None |}.

(** A filter of another type, as found next to the proxy on a netdev. *)
Definition buffer_filter : COLOProxyState :=
  {| typename := "filter-buffer"; netdev_id := "hn0";
     direction := NET_FILTER_DIRECTION_ALL; incoming_queue := false;
     colo_mode := COLO_MODE_SECONDARY; addr := None; sockfd := 0;
     conn_list := []; status := COLO_PROXY_NONE; hashtable_size := 0;
     need_compare_ev := None; thread := None |}.

(** A machine with one colo-proxy filter after another filter, a table
    [r] bounded by two flows, and [rx] waiting on every descriptor. *)
Definition lab_world (h : Host) (nf : COLOProxyState)
    (r : list (ConnectionKey * Connection)) (flag : bool) (rx : list byte) : World :=
  {| colo_conn_hash := r; colo_do_checkpoint := flag; hashtable_max_size := 2;
     net_filters := [buffer_filter; nf]; host := h;
     sock_rx := fun _ => rx; sock_tx := fun _ => []; trace := [] |}.


(** The frame of section 8: four payload bytes DE AD BE EF. *)
Definition deadbeef : list byte := [Byte.xde; Byte.xad; Byte.xbe; Byte.xef].

Definition lab_key (a : Z) : ConnectionKey :=
  {| src := a; dst := 1; src_port := 80; dst_port := 8080; ip_proto := 6 |}.

Definition lab_packet (bs : list byte) : Packet :=
  {| data := bs; network_layer := 14; transport_layer := 34;
     size := Z.of_nat (length bs); sender := -1 |}.

(** A flow whose two sides agree on their first packet and differ on the
    second. *)
Definition diverging_flow : Connection :=
  {| primary_list := [lab_packet [Byte.xaa]; lab_packet [Byte.xbb]];
     secondary_list := [lab_packet [Byte.xaa]; lab_packet [Byte.xff]];
     processing := true; conn_ip_proto := 6 |}.

(** ** The rest of colo-proxy.c *)

(** Conversion to [uint32_t]. *)
Definition to_uint32 (z : Z) : Z := z mod 2 ^ 32.

(** [sizeof(ConnectionKey)]: the struct is packed, 4 + 4 + 2 + 2 + 1. *)
Definition sizeof_ConnectionKey : nat := 13.

(** The object representation of a packed [ConnectionKey] on a
    little-endian host: the fields one after the other, without padding. *)
Definition connection_key_bytes (k : ConnectionKey) : list byte :=
  le_split 4 (src k) ++ le_split 4 (dst k) ++
  le_split 2 (src_port k) ++ le_split 2 (dst_port k) ++
  le_split 1 (ip_proto k).

(** [memcmp(p, q, n) == 0]. *)
Definition memcmp_is_zero (p q : list byte) (n : nat) : bool :=
  if list_eq_dec Byte.byte_eq_dec (firstn n p) (firstn n q) then true else false.

(** [connection_key_equal] as the source writes it: [memcmp] over
    [sizeof(ConnectionKey)] bytes of the two keys. *)
Definition connection_key_equal_memcmp (k1 k2 : ConnectionKey) : bool :=
  memcmp_is_zero (connection_key_bytes k1) (connection_key_bytes k2)
                 sizeof_ConnectionKey.

(** The values a [ConnectionKey] can hold: 32-bit addresses, 16-bit ports,
    an 8-bit protocol. *)
Definition key_in_range (k : ConnectionKey) : Prop :=
  0 <= src k < 2 ^ 32 /\ 0 <= dst k < 2 ^ 32 /\
  0 <= src_port k < 2 ^ 16 /\ 0 <= dst_port k < 2 ^ 16 /\
  0 <= ip_proto k < 2 ^ 8.

(** The macros of qemu/jhash.h that [connection_key_hash] uses and that
    colo-proxy.c does not define: the initial value and the two mixing
    steps on the words (a, b, c). *)
Class Jhash := {
  JHASH_INITVAL : Z;
  __jhash_mix : Z * Z * Z -> Z * Z * Z;
  __jhash_final : Z * Z * Z -> Z * Z * Z
}.

(** Lines 153-156 of [connection_key_hash]: the words (a, b, c) handed to
    [__jhash_mix].  The port word is [src_port | dst_port << 16], taken as a
    [uint32_t] when it is added to [c]. *)
Definition connection_key_hash_words {J : Jhash} (key : ConnectionKey) : Z * Z * Z :=
  let init := to_uint32 (JHASH_INITVAL + Z.of_nat sizeof_ConnectionKey) in
  (to_uint32 (init + src key),
   to_uint32 (init + dst key),
   to_uint32 (init + to_uint32 (Z.lor (src_port key) (Z.shiftl (dst_port key) 16)))).

(** [connection_key_hash]. *)
Definition connection_key_hash {J : Jhash} (key : ConnectionKey) : Z :=
  let '(a, b, c) := __jhash_mix (connection_key_hash_words key) in
  let a := to_uint32 (a + ip_proto key) in
  let '(_, _, c) := __jhash_final (a, b, c) in
  to_uint32 c.

(** One hexadecimal digit, as [printf] writes it for [%x]. *)
Definition hex_digit (n : Z) : Ascii.ascii :=
  match n with
  | 0 => "0" | 1 => "1" | 2 => "2" | 3 => "3" | 4 => "4" | 5 => "5"
  | 6 => "6" | 7 => "7" | 8 => "8" | 9 => "9" | 10 => "a" | 11 => "b"
  | 12 => "c" | 13 => "d" | 14 => "e" | _ => "f"
  end%char.

(** The value of a hexadecimal digit. *)
Definition hex_value (c : Ascii.ascii) : Z :=
  match find (fun n => Ascii.eqb (hex_digit n) c)
             [0; 1; 2; 3; 4; 5; 6; 7; 8; 9; 10; 11; 12; 13; 14; 15] with
  | Some n => n
  | None => 0
  end.

(** [printf("%02x ", b)] for a [uint8_t]. *)
Definition printf_02x (b : byte) : string :=
  String (hex_digit (byte.unsigned b / 16))
    (String (hex_digit (byte.unsigned b mod 16)) " ").

(** The loop of [colo_proxy_dump_packet]: [count] bytes are read from the
    buffer; reading past its end has no defined result. *)
Fixpoint dump_bytes (count : nat) (bs : list byte) : option string :=
  match count with
  | O => Some EmptyString
  | S count' =>
      match bs with
      | [] => None
      | b :: bs' =>
          match dump_bytes count' bs' with
          | Some out => Some (printf_02x b ++ out)%string
          | None => None
          end
      end
  end.

(** [colo_proxy_dump_packet]: what it writes to the standard output. *)
Definition colo_proxy_dump_packet (pkt : Packet) : option string :=
  match dump_bytes (Z.to_nat (size pkt)) (data pkt) with
  | Some out => Some (out ++ String "010" EmptyString)%string
  | None => None
  end.







(** The operations through which the table of connections can be written:
    the setup of a filter, which creates it; the socket handler and the
    comparison scan, which hand packets to the registry; and stop, which
    hands the filter to [colo_proxy_primary_checkpoint] or
    [colo_proxy_secondary_checkpoint], both defined outside colo-proxy.c
    where the table, a global with external linkage, is in reach. *)
Definition writes_table (op : Op) : bool :=
  match op with
  | OpSetup _ | OpStop _ | OpSockReceive _ | OpCompareScan => true
  | _ => false
  end.

(** The call [qemu_accept] makes for one answer of the host. *)
Definition accept_call (fd : Z) (answer : Z * Z) : Event :=
  CallQemuAccept fd (fst answer) (snd answer).

(** An answer of [qemu_accept] that makes [colo_wait_incoming] try again. *)
Definition interrupted (answer : Z * Z) : Prop :=
  fst answer < 0 /\ snd answer = EINTR.

(** Rotation of a 32-bit word to the left. *)
Definition rol32 (x k : Z) : Z :=
  to_uint32 (Z.lor (Z.shiftl (to_uint32 x) k) (Z.shiftr (to_uint32 x) (32 - k))).

(** One line [x -= z; x ^= rol32(z, k); z += y] of the lookup3 mixer. *)
Definition mix_line (x y z k : Z) : Z * Z :=
  (to_uint32 (Z.lxor (to_uint32 (x - z)) (rol32 z k)), to_uint32 (z + y)).

(** One line [x ^= y; x -= rol32(y, k)] of the lookup3 final step. *)
Definition final_line (x y k : Z) : Z :=
  to_uint32 (Z.lxor x y - rol32 y k).

(** Bob Jenkins' lookup3 mixing steps on 32-bit words, with the usual
    initial value, for the concrete machine. *)
Definition lab_jhash : Jhash :=
  {| JHASH_INITVAL := 3735928559;
     __jhash_mix := fun '(a, b, c) =>
       let '(a, c) := mix_line a b c 4 in
       let '(b, a) := mix_line b c a 6 in
       let '(c, b) := mix_line c a b 8 in
       let '(a, c) := mix_line a b c 16 in
       let '(b, a) := mix_line b c a 19 in
       let '(c, b) := mix_line c a b 4 in
       (a, b, c);
     __jhash_final := fun '(a, b, c) =>
       let c := final_line c b 14 in
       let a := final_line a c 11 in
       let b := final_line b a 25 in
       let c := final_line c b 16 in
       let a := final_line a c 4 in
       let b := final_line b a 14 in
       let c := final_line c b 24 in
       (a, b, c) |}.

(** * Properties *)

Arguments ssize_t_bytes : simpl never.
Arguments ssize_t_value : simpl never.
Arguments to_ssize_t : simpl never.
Arguments sizeof_ssize_t : simpl never.

(** ** Integers and buffers *)

Lemma to_ssize_t_small (z : Z) :
  - 2 ^ 63 <= z < 2 ^ 63 -> to_ssize_t z = z.
Proof.
  intros Hz. unfold to_ssize_t.
  destruct (Z.ltb_spec (z mod 2 ^ 64) (2 ^ 63)) as [Hlt | Hge].
  - destruct (Z.neg_nonneg_cases z) as [Hneg | Hpos].
    + assert (z mod 2 ^ 64 = z + 2 ^ 64)
        by (symmetry; apply Z.mod_unique with (q := -1); lia).
      lia.
    + apply Z.mod_small. lia.
  - destruct (Z.neg_nonneg_cases z) as [Hneg | Hpos].
    + assert (z mod 2 ^ 64 = z + 2 ^ 64)
        by (symmetry; apply Z.mod_unique with (q := -1); lia).
      lia.
    + rewrite Z.mod_small in Hge by lia. lia.
Qed.

Lemma to_ssize_t_mod (z : Z) : to_ssize_t (z mod 2 ^ 64) = to_ssize_t z.
Proof. unfold to_ssize_t. now rewrite Z.mod_mod by lia. Qed.

Lemma ssize_t_bytes_length (z : Z) : length (ssize_t_bytes z) = sizeof_ssize_t.
Proof. apply length_le_split. Qed.

Lemma ssize_t_value_bytes (z : Z) :
  - 2 ^ 63 <= z < 2 ^ 63 -> ssize_t_value (ssize_t_bytes z) = z.
Proof.
  intros Hz. unfold ssize_t_value, ssize_t_bytes.
  rewrite le_combine_split.
  change (Z.of_nat sizeof_ssize_t * 8) with 64.
  rewrite to_ssize_t_mod. now apply to_ssize_t_small.
Qed.

Lemma iov_size_small (iov : list (list byte)) :
  Z.of_nat (length (concat iov)) < 2 ^ 63 ->
  to_ssize_t (iov_size iov) = Z.of_nat (length (concat iov)).
Proof.
  intros Hlt. unfold iov_size, to_size_t.
  rewrite to_ssize_t_mod. apply to_ssize_t_small. lia.
Qed.

Lemma status_eqb_eq (a b : ProxyStatus) : status_eqb a b = true <-> a = b.
Proof. destruct a, b; simpl; split; congruence. Qed.

Lemma mode_eqb_eq (a b : COLOMode) : mode_eqb a b = true <-> a = b.
Proof. destruct a, b; simpl; split; congruence. Qed.

Lemma connection_key_equal_eq (k1 k2 : ConnectionKey) :
  connection_key_equal k1 k2 = true <-> k1 = k2.
Proof.
  unfold connection_key_equal. rewrite !andb_true_iff, !Z.eqb_eq.
  destruct k1, k2; simpl. split.
  - intros [[[[-> ->] ->] ->] ->]. reflexivity.
  - intros H; injection H; auto.
Qed.

Lemma connection_key_equal_refl (k : ConnectionKey) :
  connection_key_equal k k = true.
Proof. now apply connection_key_equal_eq. Qed.

Lemma upd_same (f : Z -> list byte) (fd : Z) (v : list byte) :
  upd f fd v fd = v.
Proof. unfold upd. now rewrite Z.eqb_refl. Qed.

Lemma upd_upd (f : Z -> list byte) (fd : Z) (v1 v2 : list byte) :
  upd (upd f fd v1) fd v2 = upd f fd v2.
Proof.
  apply functional_extensionality; intros fd'. unfold upd.
  now destruct (fd' =? fd).
Qed.

Lemma concat_single {A} (x : list A) : concat [x] = x.
Proof. simpl. apply app_nil_r. Qed.

(** Reduce the projections of a world that was just built. *)
Ltac world_simpl :=
  cbn [colo_conn_hash colo_do_checkpoint hashtable_max_size net_filters
       host sock_rx sock_tx trace set_conn_hash set_do_checkpoint
       set_net_filters set_sock_rx set_sock_tx set_trace outcome_world].

Lemma firstn_exact {A} (pre rest : list A) :
  firstn (length pre) (pre ++ rest) = pre.
Proof. induction pre as [ | x pre IH]; simpl; [now destruct rest | now rewrite IH]. Qed.

Lemma skipn_exact {A} (pre rest : list A) :
  skipn (length pre) (pre ++ rest) = rest.
Proof. induction pre as [ | x pre IH]; simpl; auto. Qed.

Lemma skipn_whole {A} (l : list A) : skipn (length l) l = [].
Proof. induction l; simpl; auto. Qed.

Lemma firstn_whole {A} (l : list A) : firstn (length l) l = l.
Proof. induction l as [ | x l IH]; simpl; [ | rewrite IH]; reflexivity. Qed.

(** Reading a stream that starts with [pre] into a buffer of that size. *)
Lemma iov_recv_exact (fd : Z) (buf pre rest : list byte) (n : Z) (w : World) :
  0 <= fd -> 0 <= n < 2 ^ 64 ->
  length pre = Z.to_nat n -> length buf = length pre ->
  sock_rx w fd = pre ++ rest ->
  iov_recv fd buf n w
    = Returns (n, pre) (set_sock_rx (upd (sock_rx w) fd rest) w).
Proof.
  intros Hfd Hn Hlen Hbuf Hrx. unfold iov_recv, to_size_t.
  destruct (Z.leb_spec 0 fd); [ | lia].
  rewrite Z.mod_small by lia. rewrite Hrx, <- Hlen.
  rewrite firstn_exact, skipn_exact, <- Hbuf, skipn_whole, app_nil_r.
  rewrite Hbuf, Hlen, Z2Nat.id by lia. reflexivity.
Qed.

(** Writing to a live descriptor. *)
Lemma iov_send_all (fd : Z) (iov : list (list byte)) (n : Z) (w : World) :
  0 <= fd -> link_up (host w) fd = true ->
  0 <= n < 2 ^ 64 -> Z.to_nat n = length (concat iov) ->
  iov_send fd iov 0 n w
    = Returns n (set_sock_tx (upd (sock_tx w) fd (sock_tx w fd ++ concat iov)) w).
Proof.
  intros Hfd Hup Hn Hlen. unfold iov_send, to_size_t.
  destruct (Z.leb_spec 0 fd); [ | lia]. rewrite Hup. simpl.
  rewrite Z.mod_small by lia. rewrite Hlen, firstn_whole, <- Hlen.
  rewrite Z2Nat.id by lia. reflexivity.
Qed.

(** ** Framing: what the functions that never touch the globals keep *)

Lemma keeps_ret {A} (P : World -> Prop) (a : A) : keeps P (ret a).
Proof. intros w H. exact H. Qed.

Lemma keeps_bind {A B} (P : World -> Prop) (m : M A) (k : A -> M B) :
  keeps P m -> (forall a, keeps P (k a)) -> keeps P (bind m k).
Proof.
  intros Hm Hk w H. unfold bind. specialize (Hm w H).
  destruct (m w) as [a w' | w' | w']; simpl in *; auto.
  now apply Hk.
Qed.

Lemma keeps_assert (P : World -> Prop) (b : bool) : keeps P (assert b).
Proof. intros w H. unfold assert. now destruct b. Qed.

Lemma keeps_read {A} (P : World -> Prop) (f : World -> A) :
  keeps P (fun w => Returns (f w) w).
Proof. intros w H. exact H. Qed.

Create HintDb keeps.
#[local] Hint Resolve keeps_ret keeps_assert keeps_read : keeps.

Ltac keeps_step :=
  lazymatch goal with
  | |- keeps _ (bind _ _) => apply keeps_bind; [ | intros ? ]
  | |- keeps _ (match ?x with _ => _ end) => destruct x
  | |- keeps _ (if ?b then _ else _) => destruct b
  | |- keeps _ _ => solve [ auto with keeps ]
  end.

Ltac keeps_auto := repeat keeps_step.

Section Frame.
Context {ext : Externals}.
Variable P : World -> Prop.
Hypothesis P_trace : forall t w, P w -> P (set_trace t w).
Hypothesis P_rx : forall f w, P w -> P (set_sock_rx f w).
Hypothesis P_tx : forall f w, P w -> P (set_sock_tx f w).
Hypothesis P_filters : forall l w, P w -> P (set_net_filters l w).

Lemma keeps_call (e : Event) : keeps P (call e).
Proof. intros w H. now apply P_trace. Qed.

Lemma keeps_iov_send (fd : Z) (iov : list (list byte)) (offset bytes : Z) :
  keeps P (iov_send fd iov offset bytes).
Proof.
  intros w H. unfold iov_send.
  destruct ((0 <=? fd) && link_up (host w) fd); simpl; auto.
Qed.

Lemma keeps_iov_recv (fd : Z) (buf : list byte) (bytes : Z) :
  keeps P (iov_recv fd buf bytes).
Proof.
  intros w H. unfold iov_recv. destruct (0 <=? fd); simpl; auto.
Qed.

Hint Resolve keeps_call keeps_iov_send keeps_iov_recv : keeps.

Lemma keeps_g_malloc0 (n : Z) : keeps P (g_malloc0 n).
Proof. unfold g_malloc0. keeps_auto. Qed.

Lemma keeps_sock_send (s : COLOProxyState) (iov : list (list byte)) :
  keeps P (colo_proxy_sock_send s iov).
Proof. unfold colo_proxy_sock_send. keeps_auto. Qed.

Lemma keeps_receive_iov (s : COLOProxyState) (sender flags : Z)
    (iov : list (list byte)) (sent_cb : option Z) :
  keeps P (colo_proxy_receive_iov s sender flags iov sent_cb).
Proof. unfold colo_proxy_receive_iov. keeps_auto. Qed.

Lemma keeps_cleanup (s : COLOProxyState) : keeps P (colo_proxy_cleanup s).
Proof. unfold colo_proxy_cleanup. keeps_auto. Qed.

Lemma keeps_accept_retry (fd : Z) (answers : list (Z * Z)) :
  keeps P (accept_retry fd answers).
Proof.
  induction answers as [ | [a e] rest IH]; simpl.
  - intros w H. exact H.
  - keeps_auto.
Qed.

Hint Resolve keeps_g_malloc0 keeps_accept_retry : keeps.

Lemma keeps_wait_incoming (s : COLOProxyState) : keeps P (colo_wait_incoming s).
Proof.
  unfold colo_wait_incoming. keeps_auto.
  intros w H. simpl. now apply keeps_accept_retry.
Qed.

Lemma keeps_connect (s : COLOProxyState) : keeps P (colo_proxy_connect s).
Proof. unfold colo_proxy_connect. keeps_auto. Qed.

Hint Resolve keeps_wait_incoming keeps_connect : keeps.

Lemma keeps_start_one (nf : COLOProxyState) (mode : COLOMode) :
  keeps P (colo_proxy_start_one nf mode).
Proof. unfold colo_proxy_start_one. keeps_auto. Qed.

Lemma keeps_stop_one (nf : COLOProxyState) (mode : COLOMode) :
  keeps P (colo_proxy_stop_one nf mode).
Proof. unfold colo_proxy_stop_one. keeps_auto. Qed.

Lemma keeps_foreach
    (func : COLOProxyState -> M (COLOProxyState * option string))
    (nfs : list COLOProxyState) :
  (forall nf, keeps P (func nf)) -> keeps P (qemu_foreach_netfilter func nfs).
Proof.
  intros Hf. induction nfs as [ | nf rest IH]; simpl.
  - auto with keeps.
  - keeps_auto.
Qed.

Lemma keeps_start (mode : COLOMode) : keeps P (colo_proxy_start mode).
Proof.
  intros w H. unfold colo_proxy_start.
  apply (keeps_bind P (qemu_foreach_netfilter _ (net_filters w))); auto.
  - apply keeps_foreach. intros nf. apply keeps_start_one.
  - intros [nfs err] w' H'. simpl. now apply P_filters.
Qed.

Lemma keeps_stop (mode : COLOMode) : keeps P (colo_proxy_stop mode).
Proof.
  intros w H. unfold colo_proxy_stop.
  apply (keeps_bind P (qemu_foreach_netfilter _ (net_filters w))); auto.
  - apply keeps_foreach. intros nf. apply keeps_stop_one.
  - intros [nfs err] w' H'. simpl. now apply P_filters.
Qed.

Lemma keeps_on_filter {A} (i : nat)
    (f : COLOProxyState -> M (COLOProxyState * A)) :
  (forall s, keeps P (f s)) -> keeps P (on_filter i f).
Proof.
  intros Hf w H. unfold on_filter.
  destruct (nth_error (net_filters w) i) as [s | ]; auto.
  apply (keeps_bind P (f s)); auto.
  intros [s' a] w' H'. simpl. now apply P_filters.
Qed.

Lemma keeps_sock_receive (s : COLOProxyState) :
  (forall s buf len, keeps P (colo_proxy_enqueue_secondary_packet s buf len)) ->
  keeps P (colo_proxy_sock_receive s).
Proof.
  intros Henq. unfold colo_proxy_sock_receive, sock_receive_deliver,
    qemu_net_queue_send.
  keeps_auto.
Qed.

(** Every operation keeps [P] once the three functions that write the
    globals do. *)
Lemma keeps_run_op (op : Op) :
  (forall s buf len, keeps P (colo_proxy_enqueue_secondary_packet s buf len)) ->
  keeps P colo_proxy_compare_scan ->
  (is_setup op = true -> forall nf, keeps P (colo_proxy_setup nf)) ->
  keeps P (run_op op).
Proof.
  intros Henq Hscan Hsetup. destruct op; simpl.
  - unfold colo_proxy_query_checkpoint. keeps_auto.
  - apply keeps_on_filter. now apply Hsetup.
  - apply keeps_on_filter. intros s. keeps_auto. apply keeps_cleanup.
  - apply keeps_bind; [apply keeps_start | intros; apply keeps_ret].
  - apply keeps_stop.
  - apply keeps_on_filter. intros s. apply keeps_sock_send.
  - apply keeps_on_filter. intros s. keeps_auto. now apply keeps_sock_receive.
  - apply keeps_on_filter. intros s. apply keeps_receive_iov.
  - exact Hscan.
Qed.

Lemma keeps_run_ops (ops : list Op) (w : World) :
  (forall s buf len, keeps P (colo_proxy_enqueue_secondary_packet s buf len)) ->
  keeps P colo_proxy_compare_scan ->
  (existsb is_setup ops = true -> forall nf, keeps P (colo_proxy_setup nf)) ->
  P w -> P (run_ops ops w).
Proof.
  intros Henq Hscan. revert w.
  induction ops as [ | op ops IH]; intros w Hsetup Hw; simpl; auto.
  simpl in Hsetup. apply IH.
  - intros H. apply Hsetup. rewrite H. apply orb_true_r.
  - apply keeps_run_op; auto.
    intros H. apply Hsetup. now rewrite H.
Qed.

End Frame.

Section Properties.
Context {ext : Externals}.

(** ** The packet-arrival path *)

(** C10.  [colo_proxy_receive_iov] returns 0 when the proxy is not running
    and the size of the iovec when it is (the full byte count whenever that
    count fits an [ssize_t]); in both cases the filter, the table of
    connections with all its queues, the checkpoint flag and the trace of
    calls (so no completion callback) are exactly as before. *)
Theorem receive_iov_returns_size_and_keeps_state
    (s : COLOProxyState) (sender flags : Z) (iov : list (list byte))
    (sent_cb : option Z) (w : World) :
  (status s <> COLO_PROXY_RUNNING ->
   colo_proxy_receive_iov s sender flags iov sent_cb w = Returns (s, 0) w) /\
  (status s = COLO_PROXY_RUNNING ->
   colo_proxy_receive_iov s sender flags iov sent_cb w
     = Returns (s, to_ssize_t (iov_size iov)) w /\
   (Z.of_nat (length (concat iov)) < 2 ^ 63 ->
    to_ssize_t (iov_size iov) = Z.of_nat (length (concat iov)))).
Proof.
  unfold colo_proxy_receive_iov. split.
  - intros Hst.
    destruct (status_eqb (status s) COLO_PROXY_RUNNING) eqn:E.
    + apply status_eqb_eq in E. contradiction.
    + reflexivity.
  - intros Hst. rewrite Hst. simpl. split.
    + now destruct (mode_eqb (colo_mode s) COLO_MODE_PRIMARY).
    + apply iov_size_small.
Qed.

(** ** Framing on the transport *)

(** What [colo_proxy_sock_send] writes for a non-empty payload. *)
Lemma sock_send_frame (s : COLOProxyState) (iov : list (list byte)) (w : World) :
  let n := Z.of_nat (length (concat iov)) in
  0 < n < 2 ^ 63 ->
  0 <= sockfd s -> link_up (host w) (sockfd s) = true ->
  colo_proxy_sock_send s iov w
    = Returns (s, n)
        (set_sock_tx (upd (sock_tx w) (sockfd s)
           (sock_tx w (sockfd s) ++ ssize_t_bytes n ++ concat iov)) w).
Proof.
  intros n Hn Hfd Hup. unfold colo_proxy_sock_send.
  rewrite iov_size_small by (fold n; lia). fold n.
  destruct (Z.eqb_spec n 0); [lia | ].
  assert (H8 : 0 <= Z.of_nat sizeof_ssize_t < 2 ^ 64)
    by (change (Z.of_nat sizeof_ssize_t) with 8; lia).
  assert (Hn64 : 0 <= n < 2 ^ 64) by lia.
  unfold bind at 1.
  rewrite iov_send_all;
    [ | assumption | assumption | assumption
      | now rewrite concat_single, ssize_t_bytes_length, Nat2Z.id ].
  change (Z.of_nat sizeof_ssize_t <? 0) with false. cbv iota.
  unfold bind.
  rewrite iov_send_all;
    [ | assumption | assumption | assumption | unfold n; now rewrite Nat2Z.id ].
  unfold ret. f_equal. unfold set_sock_tx. world_simpl.
  rewrite upd_upd, upd_same, concat_single, <- app_assoc. reflexivity.
Qed.

(** What [colo_proxy_sock_receive] does with a stream that starts with a
    frame of acceptable length. *)
Lemma sock_receive_frame (s : COLOProxyState) (payload rest : list byte) (w : World) :
  let n := Z.of_nat (length payload) in
  0 < n < 2 ^ 63 -> n < NET_BUFSIZE ->
  0 <= sockfd s ->
  sock_rx w (sockfd s) = ssize_t_bytes n ++ payload ++ rest ->
  colo_proxy_sock_receive s w
    = sock_receive_deliver s payload n
        (set_trace (trace w ++ [CallGMalloc0 n])
           (set_sock_rx (upd (sock_rx w) (sockfd s) rest) w)).
Proof.
  intros n Hn Hbuf Hfd Hrx. unfold colo_proxy_sock_receive.
  assert (H8 : 0 <= Z.of_nat sizeof_ssize_t < 2 ^ 64)
    by (change (Z.of_nat sizeof_ssize_t) with 8; lia).
  assert (Hn64 : 0 <= n < 2 ^ 64) by lia.
  unfold bind at 1.
  rewrite (iov_recv_exact _ _ (ssize_t_bytes n) (payload ++ rest));
    [ | assumption | assumption
      | now rewrite ssize_t_bytes_length, Nat2Z.id
      | now rewrite !ssize_t_bytes_length
      | assumption ].
  rewrite ssize_t_value_bytes by lia.
  destruct (Z.ltb_spec 0 n); [ | lia].
  destruct (Z.ltb_spec n NET_BUFSIZE); [ | lia]. cbv [andb].
  unfold g_malloc0, call, ret, bind.
  rewrite (iov_recv_exact _ _ payload rest);
    [ | assumption | assumption
      | unfold n; now rewrite Nat2Z.id
      | rewrite repeat_length; unfold n; now rewrite Nat2Z.id
      | world_simpl; now rewrite upd_same ].
  unfold set_sock_rx, set_trace. world_simpl. rewrite upd_upd. reflexivity.
Qed.

(** C4, as amended.  A non-empty payload (of a size that fits an
    [ssize_t]) sent on a live descriptor goes out as the eight bytes of its
    length followed by exactly the payload bytes, and [colo_proxy_sock_send]
    returns that length; an empty payload writes nothing at all.  A peer
    whose stream starts with such a frame, the payload being shorter than
    [NET_BUFSIZE], reads it whole: the payload it delivers is byte-identical
    and what follows the frame stays in the stream. *)
Theorem sock_send_receive_round_trip
    (snd_s rcv_s : COLOProxyState) (iov : list (list byte))
    (rest : list byte) (wa wb : World) :
  let payload := concat iov in
  let n := Z.of_nat (length payload) in
  (n = 0 -> colo_proxy_sock_send snd_s iov wa = Returns (snd_s, 0) wa) /\
  (0 < n < 2 ^ 63 ->
   0 <= sockfd snd_s -> link_up (host wa) (sockfd snd_s) = true ->
   exists wa',
     colo_proxy_sock_send snd_s iov wa = Returns (snd_s, n) wa' /\
     sock_tx wa' (sockfd snd_s)
       = sock_tx wa (sockfd snd_s) ++ ssize_t_bytes n ++ payload /\
     (n < NET_BUFSIZE -> 0 <= sockfd rcv_s ->
      sock_rx wb (sockfd rcv_s) = ssize_t_bytes n ++ payload ++ rest ->
      colo_proxy_sock_receive rcv_s wb
        = sock_receive_deliver rcv_s payload n
            (set_trace (trace wb ++ [CallGMalloc0 n])
               (set_sock_rx (upd (sock_rx wb) (sockfd rcv_s) rest) wb)))).
Proof.
  intros payload n. split.
  - intros Hz. unfold colo_proxy_sock_send.
    rewrite iov_size_small by (fold payload; fold n; lia).
    fold payload; fold n. rewrite Hz. reflexivity.
  - intros Hn Hfd Hup. eexists. split; [ | split].
    + now apply sock_send_frame.
    + world_simpl. now rewrite upd_same.
    + intros Hbuf Hfd' Hrx. now apply sock_receive_frame.
Qed.

(** C5, as amended.  A frame whose declared length is [NET_BUFSIZE] or more
    is dropped without a word: its length prefix is read, no payload buffer
    is allocated, nothing is delivered or reported, and the filter, with
    its status, is as before; the payload bytes stay unread in the
    stream. *)
Theorem sock_receive_oversized_frame_ignored
    (s : COLOProxyState) (len : Z) (rest : list byte) (w : World) :
  - 2 ^ 63 <= len < 2 ^ 63 -> NET_BUFSIZE <= len ->
  0 <= sockfd s ->
  sock_rx w (sockfd s) = ssize_t_bytes len ++ rest ->
  colo_proxy_sock_receive s w
    = Returns s (set_sock_rx (upd (sock_rx w) (sockfd s) rest) w).
Proof.
  intros Hlen Hbig Hfd Hrx. unfold colo_proxy_sock_receive.
  assert (H8 : 0 <= Z.of_nat sizeof_ssize_t < 2 ^ 64)
    by (change (Z.of_nat sizeof_ssize_t) with 8; lia).
  unfold bind at 1.
  rewrite (iov_recv_exact _ _ (ssize_t_bytes len) rest);
    [ | assumption | assumption
      | now rewrite ssize_t_bytes_length, Nat2Z.id
      | now rewrite !ssize_t_bytes_length
      | assumption ].
  rewrite ssize_t_value_bytes by lia.
  destruct (Z.ltb_spec len NET_BUFSIZE); [lia | ].
  now rewrite andb_false_r.
Qed.

(** ** Start and stop *)

Lemma set_trace_app (t1 t2 : list Event) (w : World) :
  set_trace (trace (set_trace (trace w ++ t1) w) ++ t2) (set_trace (trace w ++ t1) w)
  = set_trace (trace w ++ t1 ++ t2) w.
Proof. unfold set_trace. world_simpl. now rewrite app_assoc. Qed.

Lemma call_run (e : Event) (w : World) :
  call e w = Returns tt (set_trace (trace w ++ [e]) w).
Proof. reflexivity. Qed.

Lemma call_after (e : Event) (t : list Event) (w : World) :
  call e (set_trace (trace w ++ t) w)
  = Returns tt (set_trace (trace w ++ t ++ [e]) w).
Proof. rewrite call_run. now rewrite set_trace_app. Qed.

Lemma accept_retry_run (fd : Z) (answers : list (Z * Z)) (t : list Event) (w : World) :
  accept_retry fd answers (set_trace (trace w ++ t) w)
  = match accept_result answers with
    | Some r => Returns r (set_trace (trace w ++ t ++ accept_calls fd answers) w)
    | None => Blocked (set_trace (trace w ++ t ++ accept_calls fd answers) w)
    end.
Proof.
  revert t. induction answers as [ | [a e] rest IH]; intros t; simpl.
  - now rewrite app_nil_r.
  - unfold bind. rewrite call_after.
    destruct ((a <? 0) && (e =? EINTR)).
    + rewrite IH. now rewrite <- app_assoc.
    + reflexivity.
Qed.


Lemma foreach_skip
    (func : COLOProxyState -> M (COLOProxyState * option string))
    (l : list COLOProxyState) (w : World) :
  Forall (fun nf => forall w, func nf w = Returns (nf, None) w) l ->
  qemu_foreach_netfilter func l w = Returns (l, None) w.
Proof.
  induction 1 as [ | nf l Hnf Hl IH]; simpl; auto.
  unfold bind. rewrite Hnf, IH. reflexivity.
Qed.

Lemma foreach_focus
    (func : COLOProxyState -> M (COLOProxyState * option string))
    (pre post : list COLOProxyState) (nf : COLOProxyState) (w : World) :
  Forall (fun nf => forall w, func nf w = Returns (nf, None) w) pre ->
  Forall (fun nf => forall w, func nf w = Returns (nf, None) w) post ->
  qemu_foreach_netfilter func (pre ++ nf :: post) w
  = match func nf w with
    | Returns (nf', err) w' => Returns (pre ++ nf' :: post, err) w'
    | AssertionFailed w' => AssertionFailed w'
    | Blocked w' => Blocked w'
    end.
Proof.
  intros Hpre Hpost. induction Hpre as [ | x pre Hx Hpre IH]; simpl.
  - unfold bind. destruct (func nf w) as [[nf' [e | ]] w' | w' | w']; auto.
    now rewrite foreach_skip.
  - unfold bind at 1. rewrite Hx. unfold bind. rewrite IH.
    now destruct (func nf w) as [[nf' e] w' | w' | w'].
Qed.

Lemma start_one_skip (mode : COLOMode) (nf : COLOProxyState) (w : World) :
  other_filter nf -> colo_proxy_start_one nf mode w = Returns (nf, None) w.
Proof. unfold other_filter, colo_proxy_start_one. now intros ->. Qed.

Lemma stop_one_skip (mode : COLOMode) (nf : COLOProxyState) (w : World) :
  other_filter nf -> colo_proxy_stop_one nf mode w = Returns (nf, None) w.
Proof. unfold other_filter, colo_proxy_stop_one. now intros ->. Qed.


Lemma stop_focus (mode : COLOMode) (pre post : list COLOProxyState)
    (nf : COLOProxyState) (w : World) :
  net_filters w = pre ++ nf :: post ->
  Forall other_filter pre -> Forall other_filter post ->
  colo_proxy_stop mode w
  = match colo_proxy_stop_one nf mode w with
    | Returns (nf', err) w' => Returns tt (set_net_filters (pre ++ nf' :: post) w')
    | AssertionFailed w' => AssertionFailed w'
    | Blocked w' => Blocked w'
    end.
Proof.
  intros Hnf Hpre Hpost. unfold colo_proxy_stop, bind. rewrite Hnf.
  rewrite foreach_focus.
  - now destruct (colo_proxy_stop_one nf mode w) as [[nf' e] w' | w' | w'].
  - eapply Forall_impl; [ | exact Hpre]. intros; now apply stop_one_skip.
  - eapply Forall_impl; [ | exact Hpost]. intros; now apply stop_one_skip.
Qed.

Lemma mode_eqb_refl (m : COLOMode) : mode_eqb m m = true.
Proof. now destruct m. Qed.

Ltac run_calls :=
  unfold bind, ret, assert, call, set_trace;
  repeat (progress (world_simpl; cbn [app negb Z.eqb Z.opp sockfd set_sockfd mode_eqb];
                    rewrite <- ?app_assoc)).



Lemma stop_one_run (nf : COLOProxyState) (w : World) :
  String.eqb (typename nf) TYPE_FILTER_COLO_PROXY = true ->
  colo_proxy_stop_one nf (colo_mode nf) w
  = Returns
      (match colo_mode nf with
       | COLO_MODE_PRIMARY =>
           set_need_compare_ev (Some true) (set_status COLO_PROXY_DONE nf)
       | COLO_MODE_SECONDARY => set_status COLO_PROXY_DONE nf
       end, None)
      (set_trace
         (trace w
          ++ (if 0 <=? sockfd nf
              then [CallSetFdHandler (sockfd nf) false; CallCloseSocket (sockfd nf)]
              else [])
          ++ match colo_mode nf with
             | COLO_MODE_PRIMARY =>
                 [CallPrimaryCheckpoint; CallEventSet; CallThreadJoin (thread nf)]
             | COLO_MODE_SECONDARY => [CallSecondaryCheckpoint]
             end) w).
Proof.
  intros Hty. unfold colo_proxy_stop_one.
  rewrite Hty, mode_eqb_refl. cbn [negb sockfd set_status colo_mode].
  destruct (0 <=? sockfd nf), (colo_mode nf); run_calls; reflexivity.
Qed.

Lemma typename_eqb (nf : COLOProxyState) :
  typename nf = TYPE_FILTER_COLO_PROXY ->
  String.eqb (typename nf) TYPE_FILTER_COLO_PROXY = true.
Proof. intros ->. reflexivity. Qed.


(** C8.  On a machine whose colo-proxy filter is [nf], [colo_proxy_stop]
    leaves the filter in the Done state; when the filter has a socket it
    first removes the socket handler and closes the socket; in primary mode
    it then sets the event the compare thread waits on and joins that
    thread as its last act. *)
Theorem colo_proxy_stop_tears_down
    (pre post : list COLOProxyState) (nf : COLOProxyState) (w : World) :
  net_filters w = pre ++ nf :: post ->
  Forall other_filter pre -> Forall other_filter post ->
  typename nf = TYPE_FILTER_COLO_PROXY ->
  exists nf' w' teardown final,
    colo_proxy_stop (colo_mode nf) w = Returns tt w' /\
    net_filters w' = pre ++ nf' :: post /\
    status nf' = COLO_PROXY_DONE /\
    trace w' = trace w ++ teardown ++ final /\
    (0 <= sockfd nf ->
     teardown = [CallSetFdHandler (sockfd nf) false; CallCloseSocket (sockfd nf)]) /\
    (colo_mode nf = COLO_MODE_PRIMARY ->
     final = [CallPrimaryCheckpoint; CallEventSet; CallThreadJoin (thread nf)] /\
     need_compare_ev nf' = Some true) /\
    (colo_mode nf = COLO_MODE_SECONDARY -> final = [CallSecondaryCheckpoint]).
Proof.
  intros Hnf Hpre Hpost Hty. apply typename_eqb in Hty.
  pose proof (stop_focus (colo_mode nf) pre post nf w Hnf Hpre Hpost) as Hs.
  rewrite (stop_one_run nf w Hty) in Hs.
  do 4 eexists. split; [exact Hs | ].
  split; [reflexivity | ]. split; [now destruct (colo_mode nf) | ].
  split; [reflexivity | ]. split; [ | split].
  - intros Hfd. now destruct (Z.leb_spec 0 (sockfd nf)); [ | lia].
  - intros ->. split; reflexivity.
  - intros ->. reflexivity.
Qed.

(** ** The registry *)

Lemma registry_lookup_app_new (k : ConnectionKey) (c : Connection)
    (r : list (ConnectionKey * Connection)) :
  registry_lookup k r = None -> registry_lookup k (r ++ [(k, c)]) = Some c.
Proof.
  induction r as [ | [k' c'] r IH]; simpl.
  - now rewrite connection_key_equal_refl.
  - destruct (connection_key_equal k' k); [discriminate | exact IH].
Qed.

Lemma registry_lookup_tail (k k0 : ConnectionKey) (c0 : Connection)
    (rest : list (ConnectionKey * Connection)) :
  registry_lookup k ((k0, c0) :: rest) = None -> registry_lookup k rest = None.
Proof. simpl. now destruct (connection_key_equal k0 k). Qed.

Lemma registry_lookup_store (k : ConnectionKey) (c c0 : Connection)
    (r : list (ConnectionKey * Connection)) :
  registry_lookup k r = Some c0 ->
  registry_lookup k (registry_store k c r) = Some c.
Proof.
  induction r as [ | [k' c'] r IH]; simpl; [discriminate | ].
  destruct (connection_key_equal k' k) eqn:E; simpl; rewrite E; auto.
Qed.


(** [lookup_or_create], case by case. *)
Lemma lookup_or_create_run (k : ConnectionKey) (w : World) :
  lookup_or_create k w
  = match registry_lookup k (colo_conn_hash w) with
    | Some c => Returns c w
    | None =>
        if registry_size (colo_conn_hash w) =? hashtable_max_size w
        then match colo_conn_hash w with
             | [] => Returns (connection_new k)
                       (set_conn_hash [(k, connection_new k)] w)
             | (_, c0) :: rest =>
                 Returns (connection_new k)
                   (set_conn_hash (rest ++ [(k, connection_new k)])
                      (set_trace (trace w ++ map CallPacketDestroy
                                    (primary_list c0 ++ secondary_list c0)) w))
             end
        else Returns (connection_new k)
               (set_conn_hash (colo_conn_hash w ++ [(k, connection_new k)]) w)
    end.
Proof.
  unfold lookup_or_create.
  destruct (registry_lookup k (colo_conn_hash w)); [reflexivity | ].
  destruct (registry_size (colo_conn_hash w) =? hashtable_max_size w);
    [ | reflexivity].
  unfold bind, registry_evict.
  destruct (colo_conn_hash w) as [ | [k0 c0] rest] eqn:Hr.
  - unfold ret. now rewrite Hr.
  - reflexivity.
Qed.

Lemma lookup_or_create_found (k : ConnectionKey) (w : World) :
  exists c w',
    lookup_or_create k w = Returns c w' /\
    registry_lookup k (colo_conn_hash w') = Some c /\
    c = match registry_lookup k (colo_conn_hash w) with
        | Some c0 => c0
        | None => connection_new k
        end /\
    exists calls,
      trace w' = trace w ++ calls /\
      existsb is_net_queue_send calls = false.
Proof.
  rewrite lookup_or_create_run.
  destruct (registry_lookup k (colo_conn_hash w)) as [c | ] eqn:Hl.
  - exists c, w. repeat split; auto. exists []. now rewrite app_nil_r.
  - destruct (registry_size (colo_conn_hash w) =? hashtable_max_size w).
    + destruct (colo_conn_hash w) as [ | [k0 c0] rest] eqn:Hr.
      * do 2 eexists. split; [reflexivity | ]. world_simpl. simpl.
        rewrite connection_key_equal_refl. repeat split.
        exists []. now rewrite app_nil_r.
      * do 2 eexists. split; [reflexivity | ]. world_simpl.
        apply registry_lookup_tail in Hl.
        rewrite (registry_lookup_app_new _ _ _ Hl). repeat split.
        eexists. split; [reflexivity | ].
        induction (primary_list c0 ++ secondary_list c0); simpl; auto.
    + do 2 eexists. split; [reflexivity | ]. world_simpl.
      rewrite (registry_lookup_app_new _ _ _ Hl).
      repeat split. exists []. now rewrite app_nil_r.
Qed.

Lemma enqueue_secondary_run (s : COLOProxyState) (buf : list byte) (len : Z)
    (nl tl : Z) (key : ConnectionKey) (w : World) :
  parse_packet buf len = Some (nl, tl, key) ->
  let old := match registry_lookup key (colo_conn_hash w) with
             | Some c => c
             | None => connection_new key
             end in
  let pkt := {| data := buf; network_layer := nl; transport_layer := tl;
                size := len; sender := -1 |} in
  exists w' calls,
    colo_proxy_enqueue_secondary_packet s buf len w
      = Returns (set_need_compare_ev (Some true) s) w' /\
    registry_lookup key (colo_conn_hash w')
      = Some {| primary_list := primary_list old;
                secondary_list := secondary_list old ++ [pkt];
                processing := true;
                conn_ip_proto := conn_ip_proto old |} /\
    trace w' = trace w ++ calls ++ [CallEventSet] /\
    existsb is_net_queue_send calls = false.
Proof.
  intros Hparse old pkt. unfold colo_proxy_enqueue_secondary_packet.
  rewrite Hparse.
  destruct (lookup_or_create_found key w)
    as (c & w1 & Hrun & Hlook & Hc & calls & Htr & Hno).
  unfold bind at 1. rewrite Hrun. fold old in Hc. subst c.
  exists (set_trace (trace w1 ++ [CallEventSet])
            (set_conn_hash
               (registry_store key
                  {| primary_list := primary_list old;
                     secondary_list := secondary_list old ++ [pkt];
                     processing := true;
                     conn_ip_proto := conn_ip_proto old |}
                  (colo_conn_hash w1)) w1)), calls.
  split; [reflexivity | ]. world_simpl. split; [ | split].
  - now apply registry_lookup_store with (c0 := old).
  - now rewrite Htr, <- app_assoc.
  - exact Hno.
Qed.

(** ** Delivery of a received frame *)

(** C9.  When the stream of the socket starts with a frame that
    [colo_proxy_sock_receive] accepts (a length above zero and below
    [NET_BUFSIZE], then that many payload bytes): in primary mode a payload
    that classifies to the flow [key] ends up as the last packet of that
    flow's [secondary_list] in the table, the primary queue of the flow is
    untouched, the compare event is set as the last call, and nothing is
    sent to the net queue; in secondary mode the payload is handed to
    [qemu_net_queue_send] and the table of connections is left alone. *)
Theorem sock_receive_delivers_by_mode
    (s : COLOProxyState) (payload rest : list byte) (w : World) :
  let n := Z.of_nat (length payload) in
  0 < n < 2 ^ 63 -> n < NET_BUFSIZE ->
  0 <= sockfd s ->
  sock_rx w (sockfd s) = ssize_t_bytes n ++ payload ++ rest ->
  (colo_mode s = COLO_MODE_PRIMARY ->
   forall nl tl key,
     parse_packet payload n = Some (nl, tl, key) ->
     let old := match registry_lookup key (colo_conn_hash w) with
                | Some c => c
                | None => connection_new key
                end in
     let pkt := {| data := payload; network_layer := nl; transport_layer := tl;
                   size := n; sender := -1 |} in
     exists s' w' calls,
       colo_proxy_sock_receive s w = Returns s' w' /\
       registry_lookup key (colo_conn_hash w')
         = Some {| primary_list := primary_list old;
                   secondary_list := secondary_list old ++ [pkt];
                   processing := true;
                   conn_ip_proto := conn_ip_proto old |} /\
       need_compare_ev s' = Some true /\
       trace w' = trace w ++ calls ++ [CallEventSet] /\
       existsb is_net_queue_send calls = false) /\
  (colo_mode s = COLO_MODE_SECONDARY ->
   exists w',
     colo_proxy_sock_receive s w = Returns s w' /\
     trace w' = trace w ++ [CallGMalloc0 n; CallNetQueueSend payload n] /\
     colo_conn_hash w' = colo_conn_hash w /\
     sock_rx w' (sockfd s) = rest).
Proof.
  intros n Hn Hbuf Hfd Hrx.
  pose proof (sock_receive_frame s payload rest w Hn Hbuf Hfd Hrx) as Hrun.
  fold n in Hrun. unfold sock_receive_deliver in Hrun. split.
  - intros Hmode nl tl key Hparse old pkt.
    rewrite Hmode in Hrun. cbn [mode_eqb] in Hrun.
    destruct (enqueue_secondary_run s payload n nl tl key
                (set_trace (trace w ++ [CallGMalloc0 n])
                   (set_sock_rx (upd (sock_rx w) (sockfd s) rest) w)) Hparse)
      as (w' & calls & Henq & Hlook & Htr & Hno).
    exists (set_need_compare_ev (Some true) s), w', (CallGMalloc0 n :: calls).
    split; [now rewrite Hrun | ]. split; [exact Hlook | ].
    split; [reflexivity | ]. split.
    + rewrite Htr. world_simpl. now rewrite <- app_assoc.
    + exact Hno.
  - intros Hmode. rewrite Hmode in Hrun. cbn [mode_eqb] in Hrun.
    eexists. split; [exact Hrun | ]. world_simpl. repeat split.
    + now rewrite <- app_assoc.
    + apply upd_same.
Qed.

(** ** The comparison task *)

Lemma compare_heads_run (p q : list Packet) :
  exists n,
    fst (fst (compare_heads p q)) = skipn n p /\
    snd (fst (compare_heads p q)) = skipn n q /\
    Forall2 (fun a b => packet_equal a b = true) (firstn n p) (firstn n q) /\
    match skipn n p, skipn n q with
    | a :: _, b :: _ =>
        packet_equal a b = false /\ snd (compare_heads p q) = true
    | _, _ => snd (compare_heads p q) = false
    end.
Proof.
  revert q. induction p as [ | a p IH]; intros q.
  - exists O. simpl. repeat split; constructor.
  - destruct q as [ | b q].
    + exists O. simpl. repeat split; constructor.
    + simpl. destruct (packet_equal a b) eqn:E.
      * destruct (IH q) as (n & Hp & Hq & Hall & Hstop).
        exists (S n). simpl. repeat split; auto.
      * exists O. simpl. repeat split; auto.
Qed.

Lemma compare_connection_run (c : Connection) :
  let c' := fst (compare_connection c) in
  let raise := snd (compare_connection c) in
  exists n,
    primary_list c' = skipn n (primary_list c) /\
    secondary_list c' = skipn n (secondary_list c) /\
    Forall2 (fun a b => packet_equal a b = true)
            (firstn n (primary_list c)) (firstn n (secondary_list c)) /\
    (forall a b p q,
       primary_list c' = a :: p -> secondary_list c' = b :: q ->
       packet_equal a b = false /\ raise = true) /\
    (queue_depth_limit < Z.of_nat (length (primary_list c')) \/
     queue_depth_limit < Z.of_nat (length (secondary_list c')) ->
     raise = true).
Proof.
  unfold compare_connection.
  destruct (compare_heads_run (primary_list c) (secondary_list c))
    as (n & Hp & Hq & Hall & Hstop).
  destruct (compare_heads (primary_list c) (secondary_list c)) as [[p q] m].
  simpl in *. exists n. subst p q.
  split; [reflexivity | ]. split; [reflexivity | ]. split; [exact Hall | ].
  split.
  - intros a b p q Ha Hb. rewrite Ha, Hb in Hstop.
    destruct Hstop as [Hne ->]. split; [exact Hne | reflexivity].
  - intros [Hd | Hd]; apply Z.ltb_lt in Hd; rewrite Hd.
    + now rewrite orb_true_r.
    + now rewrite !orb_true_r.
Qed.

Lemma compare_registry_run (r : list (ConnectionKey * Connection)) :
  compare_registry r
  = (map (fun kc => (fst kc, if processing (snd kc)
                             then fst (compare_connection (snd kc))
                             else snd kc)) r,
     existsb (fun kc => processing (snd kc) && snd (compare_connection (snd kc))) r).
Proof.
  induction r as [ | [k c] r IH]; simpl; auto.
  rewrite IH. destruct (processing c); simpl; auto.
  now destruct (compare_connection c).
Qed.

Lemma compare_scan_run (w : World) :
  let r := compare_registry (colo_conn_hash w) in
  colo_proxy_compare_scan w
  = Returns tt (if snd r
                then set_do_checkpoint true (set_conn_hash (fst r) w)
                else set_conn_hash (fst r) w).
Proof.
  unfold colo_proxy_compare_scan.
  now destruct (compare_registry (colo_conn_hash w)) as [r [ | ]].
Qed.

(** C2.  For a flow of the table with [processing] set, one scan of the
    comparison task removes from the heads of its two queues the pairs of
    packets that the comparator accepts, for as long as both queues are
    non-empty, and nothing else: what remains of each queue is a suffix of
    what was there.  If it stops with two heads that disagree, or with a
    queue deeper than the limit, the checkpoint flag is set after the scan;
    the flow and the packets that remain stay in the table. *)
Theorem compare_scan_raises_checkpoint_on_divergence
    (w : World) (k : ConnectionKey) (c : Connection) :
  In (k, c) (colo_conn_hash w) -> processing c = true ->
  exists w' c' n,
    colo_proxy_compare_scan w = Returns tt w' /\
    In (k, c') (colo_conn_hash w') /\
    map fst (colo_conn_hash w') = map fst (colo_conn_hash w) /\
    primary_list c' = skipn n (primary_list c) /\
    secondary_list c' = skipn n (secondary_list c) /\
    Forall2 (fun a b => packet_equal a b = true)
            (firstn n (primary_list c)) (firstn n (secondary_list c)) /\
    (forall a b p q,
       primary_list c' = a :: p -> secondary_list c' = b :: q ->
       packet_equal a b = false /\ colo_do_checkpoint w' = true) /\
    (queue_depth_limit < Z.of_nat (length (primary_list c')) \/
     queue_depth_limit < Z.of_nat (length (secondary_list c')) ->
     colo_do_checkpoint w' = true).
Proof.
  intros Hin Hproc.
  destruct (compare_connection_run c) as (n & Hp & Hq & Hall & Hmis & Hdeep).
  pose proof (compare_scan_run w) as Hrun. cbv zeta in Hrun.
  rewrite compare_registry_run in Hrun. cbn [fst snd] in Hrun.
  assert (Hflag : snd (compare_connection c) = true ->
          existsb (fun kc => processing (snd kc)
                             && snd (compare_connection (snd kc)))
                  (colo_conn_hash w) = true).
  { intros Hr. apply existsb_exists. exists (k, c). split; auto.
    simpl. now rewrite Hproc, Hr. }
  assert (Hin' : In (k, fst (compare_connection c))
            (map (fun kc => (fst kc, if processing (snd kc)
                                     then fst (compare_connection (snd kc))
                                     else snd kc)) (colo_conn_hash w))).
  { apply in_map_iff. exists (k, c). split; auto. simpl. now rewrite Hproc. }
  eexists _, (fst (compare_connection c)), n.
  split; [exact Hrun | ].
  assert (Hkeys : forall r : list (ConnectionKey * Connection),
            map fst (map (fun kc => (fst kc, if processing (snd kc)
                                             then fst (compare_connection (snd kc))
                                             else snd kc)) r) = map fst r).
  { intros r. rewrite map_map. apply map_ext. reflexivity. }
  split; [ | split; [ | split; [exact Hp | split; [exact Hq | split; [exact Hall | split]]]]].
  - destruct (existsb _ (colo_conn_hash w)); exact Hin'.
  - destruct (existsb _ (colo_conn_hash w)); apply Hkeys.
  - intros a b p q Ha Hb. destruct (Hmis a b p q Ha Hb) as [Hne Hr].
    split; [exact Hne | ]. now rewrite (Hflag Hr).
  - intros Hd. now rewrite (Hflag (Hdeep Hd)).
Qed.

(** ** The bound on the table *)







(** ** The checkpoint flag *)

Lemma flag_lookup_or_create (k : ConnectionKey) :
  keeps flag_set (lookup_or_create k).
Proof.
  intros w Hw. rewrite lookup_or_create_run.
  destruct (registry_lookup k (colo_conn_hash w)); [exact Hw | ].
  destruct (registry_size (colo_conn_hash w) =? hashtable_max_size w);
    [ | exact Hw].
  destruct (colo_conn_hash w) as [ | [k0 c0] rest]; exact Hw.
Qed.

Lemma flag_enqueue (s : COLOProxyState) (buf : list byte) (len : Z) :
  keeps flag_set (colo_proxy_enqueue_secondary_packet s buf len).
Proof.
  unfold colo_proxy_enqueue_secondary_packet.
  destruct (parse_packet buf len) as [[[nl tl] key] | ].
  - apply keeps_bind; [apply flag_lookup_or_create | intros c].
    apply keeps_bind; [intros w Hw; exact Hw | intros _].
    apply keeps_bind; [intros w Hw; exact Hw | intros; apply keeps_ret].
  - apply keeps_bind; [intros w Hw; exact Hw | intros; apply keeps_ret].
Qed.

Lemma flag_scan : keeps flag_set colo_proxy_compare_scan.
Proof.
  intros w Hw. rewrite compare_scan_run. cbv zeta.
  destruct (snd (compare_registry (colo_conn_hash w))); [reflexivity | exact Hw].
Qed.

(** C3, as amended.  [colo_proxy_query_checkpoint] returns the flag and
    changes nothing, so polls that follow each other give the same answer.
    Once the flag is set it stays set along every execution in which no
    filter is set up: [colo_proxy_setup] is the one operation that writes
    false to it, which it does for every filter it accepts. *)
Theorem checkpoint_flag_cleared_only_by_setup (w : World) :
  colo_proxy_query_checkpoint w = Returns (colo_do_checkpoint w) w /\
  (a <- colo_proxy_query_checkpoint ;; b <- colo_proxy_query_checkpoint ;;
   ret (a, b)) w = Returns (colo_do_checkpoint w, colo_do_checkpoint w) w /\
  (forall ops,
     existsb is_setup ops = false ->
     colo_do_checkpoint w = true ->
     colo_do_checkpoint (run_ops ops w) = true) /\
  (forall nf a,
     addr nf = Some a -> direction nf = NET_FILTER_DIRECTION_ALL ->
     colo_do_checkpoint (outcome_world (colo_proxy_setup nf w)) = false).
Proof.
  split; [reflexivity | ]. split; [reflexivity | ]. split.
  - intros ops Hno Hw.
    apply (keeps_run_ops flag_set); auto.
    + intros. apply flag_enqueue.
    + apply flag_scan.
    + rewrite Hno. discriminate.
  - intros nf a Ha Hd. unfold colo_proxy_setup. rewrite Ha, Hd. reflexivity.
Qed.

End Properties.

(** * More properties of colo-proxy.c *)

(** ** Keys *)

Lemma app_same_length_inj {A} (a a' b b' : list A) :
  length a = length a' -> a ++ b = a' ++ b' -> a = a' /\ b = b'.
Proof.
  revert a'. induction a as [ | x a IH]; intros [ | x' a'] Hlen Heq;
    simpl in *; try discriminate; auto.
  injection Heq as -> Heq. injection Hlen as Hlen.
  destruct (IH a' Hlen Heq) as [-> ->]. auto.
Qed.

Lemma le_split_inj (n : nat) (a b : Z) :
  0 <= a < 2 ^ (Z.of_nat n * 8) -> 0 <= b < 2 ^ (Z.of_nat n * 8) ->
  le_split n a = le_split n b -> a = b.
Proof.
  intros Ha Hb Heq. apply (f_equal le_combine) in Heq.
  rewrite !le_combine_split in Heq.
  now rewrite !Z.mod_small in Heq by assumption.
Qed.

Lemma connection_key_bytes_length (k : ConnectionKey) :
  length (connection_key_bytes k) = sizeof_ConnectionKey.
Proof.
  unfold connection_key_bytes. now rewrite !length_app, !length_le_split.
Qed.

Lemma connection_key_bytes_inj (k1 k2 : ConnectionKey) :
  key_in_range k1 -> key_in_range k2 ->
  connection_key_bytes k1 = connection_key_bytes k2 -> k1 = k2.
Proof.
  intros (Hs1 & Hd1 & Hsp1 & Hdp1 & Hp1) (Hs2 & Hd2 & Hsp2 & Hdp2 & Hp2).
  unfold connection_key_bytes. intros Heq.
  apply app_same_length_inj in Heq; [ | now rewrite !length_le_split].
  destruct Heq as [Hsrc Heq].
  apply app_same_length_inj in Heq; [ | now rewrite !length_le_split].
  destruct Heq as [Hdst Heq].
  apply app_same_length_inj in Heq; [ | now rewrite !length_le_split].
  destruct Heq as [Hsport Heq].
  apply app_same_length_inj in Heq; [ | now rewrite !length_le_split].
  destruct Heq as [Hdport Hproto].
  apply le_split_inj in Hsrc, Hdst, Hsport, Hdport, Hproto;
    try (simpl; lia).
  destruct k1, k2; simpl in *. congruence.
Qed.

(** X1.  On keys whose fields hold values of their C types, [memcmp] over
    the thirteen bytes of the packed struct is zero exactly when the five
    fields agree: the comparison of the source and the field-wise
    [connection_key_equal] are the same function. *)
Theorem connection_key_equal_is_memcmp (k1 k2 : ConnectionKey) :
  key_in_range k1 -> key_in_range k2 ->
  connection_key_equal_memcmp k1 k2 = connection_key_equal k1 k2 /\
  (connection_key_equal_memcmp k1 k2 = true <-> k1 = k2).
Proof.
  intros H1 H2.
  assert (Hiff : connection_key_equal_memcmp k1 k2 = true <-> k1 = k2).
  { unfold connection_key_equal_memcmp, memcmp_is_zero.
    rewrite !firstn_all2 by (rewrite connection_key_bytes_length; lia).
    destruct (list_eq_dec Byte.byte_eq_dec (connection_key_bytes k1)
                (connection_key_bytes k2)) as [Heq | Hne].
    - split; auto. intros _. now apply connection_key_bytes_inj.
    - split; [discriminate | ]. intros ->. now contradiction Hne. }
  split; [ | exact Hiff].
  destruct (connection_key_equal k1 k2) eqn:E.
  - apply Hiff. now apply connection_key_equal_eq.
  - destruct (connection_key_equal_memcmp k1 k2) eqn:E'; auto.
    pose proof (proj1 Hiff eq_refl) as Hk.
    apply connection_key_equal_eq in Hk. congruence.
Qed.

Lemma to_uint32_add_inj (init x y : Z) :
  0 <= x < 2 ^ 32 -> 0 <= y < 2 ^ 32 ->
  to_uint32 (init + x) = to_uint32 (init + y) -> x = y.
Proof.
  unfold to_uint32. intros Hx Hy Heq.
  assert (Hd : (init + x - (init + y)) mod 2 ^ 32 = 0).
  { rewrite Zminus_mod, Heq, Z.sub_diag. reflexivity. }
  replace (init + x - (init + y)) with (x - y) in Hd by lia.
  apply Z.mod_divide in Hd; [ | lia]. destruct Hd as [q Hq]. nia.
Qed.

Lemma land_low_high (sp dp : Z) :
  0 <= sp < 2 ^ 16 -> Z.land sp (dp * 2 ^ 16) = 0.
Proof.
  intros Hsp. apply Z.bits_inj'. intros n Hn. rewrite Z.land_spec, Z.bits_0.
  destruct (Z.ltb_spec n 16).
  - rewrite Z.mul_pow2_bits_low by lia. apply andb_false_r.
  - assert (Hlog : Z.log2 sp < 16).
    { destruct (Z.eq_dec sp 0) as [Hz | Hnz].
      - rewrite Hz. reflexivity.
      - apply Z.log2_lt_pow2; lia. }
    rewrite (Z.bits_above_log2 sp n) by lia. reflexivity.
Qed.

Lemma port_word_low (sp dp : Z) :
  0 <= sp < 2 ^ 16 ->
  Z.lor sp (Z.shiftl dp 16) = sp + dp * 2 ^ 16.
Proof.
  intros Hsp. rewrite Z.shiftl_mul_pow2 by lia.
  rewrite <- Z.lxor_lor by now apply land_low_high.
  symmetry. apply Z.add_nocarry_lxor. now apply land_low_high.
Qed.

(** X2.  Whatever the mixing macros are, [connection_key_hash] loses
    nothing before it mixes: for keys whose fields hold values of their C
    types, the three words handed to [__jhash_mix] determine both
    addresses and both ports (the port word [src_port | dst_port << 16]
    is [src_port + 65536 * dst_port]), so two keys that reach the mixer with
    the same words and have the same protocol are the same key. *)
Theorem connection_key_hash_words_determine_key {J : Jhash} (k1 k2 : ConnectionKey) :
  key_in_range k1 -> key_in_range k2 ->
  connection_key_hash_words k1 = connection_key_hash_words k2 ->
  ip_proto k1 = ip_proto k2 ->
  k1 = k2.
Proof.
  intros (Hs1 & Hd1 & Hsp1 & Hdp1 & Hp1) (Hs2 & Hd2 & Hsp2 & Hdp2 & Hp2).
  unfold connection_key_hash_words. intros Heq Hproto.
  apply pair_equal_spec in Heq. destruct Heq as [Heq Hc].
  apply pair_equal_spec in Heq. destruct Heq as [Ha Hb].
  apply to_uint32_add_inj in Ha, Hb; auto.
  rewrite !port_word_low in Hc by assumption.
  apply to_uint32_add_inj in Hc;
    try (unfold to_uint32; apply Z.mod_pos_bound; lia).
  unfold to_uint32 in Hc. rewrite !Z.mod_small in Hc by lia.
  assert (src_port k1 = src_port k2 /\ dst_port k1 = dst_port k2) as [Hsp Hdp] by lia.
  destruct k1, k2; simpl in *. congruence.
Qed.

Section Edges.
Context {ext : Externals}.

Ltac step_calls :=
  unfold bind, ret, assert, call, set_trace;
  repeat (progress (world_simpl; cbn [app negb Z.eqb Z.opp sockfd set_sockfd mode_eqb];
                    rewrite <- ?app_assoc)).

(** ** The transport at its edges *)

Lemma iov_recv_bad_fd (fd : Z) (buf : list byte) (n : Z) (w : World) :
  fd < 0 -> iov_recv fd buf n w = Returns (-1, buf) w.
Proof.
  intros Hfd. unfold iov_recv. now destruct (Z.leb_spec 0 fd); [lia | ].
Qed.

Lemma iov_send_fails (fd : Z) (iov : list (list byte)) (offset n : Z) (w : World) :
  fd < 0 \/ link_up (host w) fd = false ->
  iov_send fd iov offset n w = Returns (-1) w.
Proof.
  intros [Hfd | Hdown]; unfold iov_send.
  - now destruct (Z.leb_spec 0 fd); [lia | ].
  - rewrite Hdown. now rewrite andb_false_r.
Qed.

Lemma set_sock_rx_same (fd : Z) (v : list byte) (w : World) :
  sock_rx w fd = v -> set_sock_rx (upd (sock_rx w) fd v) w = w.
Proof.
  intros Hv. destruct w as [h f m nfs ho rx tx t]. unfold set_sock_rx.
  simpl in *. f_equal. apply functional_extensionality. intros fd'.
  unfold upd. destruct (Z.eqb_spec fd' fd); congruence.
Qed.

Lemma ssize_t_value_zero : ssize_t_value (ssize_t_bytes 0) = 0.
Proof. reflexivity. Qed.

Lemma iov_recv_trace (fd : Z) (buf : list byte) (n : Z) (w : World) :
  exists r buf' w',
    iov_recv fd buf n w = Returns (r, buf') w' /\ trace w' = trace w /\
    ((Z.to_nat (to_size_t n) <= length buf)%nat -> length buf' = length buf).
Proof.
  unfold iov_recv. destruct (0 <=? fd); do 3 eexists;
    (split; [reflexivity | ]); (split; [reflexivity | ]); [ | reflexivity].
  intros Hfit. rewrite length_app, length_skipn.
  pose proof (length_firstn (Z.to_nat (to_size_t n)) (sock_rx w fd)). lia.
Qed.

(** X4.  Without a usable connection the transport does nothing: on a
    filter with no socket (a negative [sockfd], as [colo_proxy_setup] and
    [colo_proxy_cleanup] leave it) the socket handler returns with the
    filter and the world as they are, and sending a non-empty payload on a
    filter with no socket or with a dead connection returns -1 and writes
    nothing. *)
Theorem transport_inert_without_connection
    (s : COLOProxyState) (iov : list (list byte)) (w : World) :
  (sockfd s < 0 -> colo_proxy_sock_receive s w = Returns s w) /\
  (sockfd s < 0 \/ link_up (host w) (sockfd s) = false ->
   0 < Z.of_nat (length (concat iov)) < 2 ^ 63 ->
   colo_proxy_sock_send s iov w = Returns (s, -1) w).
Proof.
  split.
  - intros Hfd. unfold colo_proxy_sock_receive, bind.
    rewrite iov_recv_bad_fd by assumption. now rewrite ssize_t_value_zero.
  - intros Hbad Hlen. unfold colo_proxy_sock_send.
    rewrite iov_size_small by lia.
    destruct (Z.eqb_spec (Z.of_nat (length (concat iov))) 0); [lia | ].
    unfold bind. now rewrite iov_send_fails.
Qed.

(** X5.  Whatever bytes wait on the socket, [colo_proxy_sock_receive]
    either returns with the filter as it was and without having made any
    call, or reaches the delivery of lines 228-234 after exactly one call,
    [g_malloc0(len)] with [len] above zero and below [NET_BUFSIZE], and
    hands over a buffer of exactly [len] bytes: no stream can make the
    handler allocate [NET_BUFSIZE] bytes or more, allocate twice, or
    deliver a buffer shorter than the length it passes along. *)
Theorem sock_receive_allocation_bounded (s : COLOProxyState) (w : World) :
  (exists w',
     colo_proxy_sock_receive s w = Returns s w' /\ trace w' = trace w) \/
  (exists len buf w1,
     0 < len < NET_BUFSIZE /\
     Z.of_nat (length buf) = len /\
     trace w1 = trace w ++ [CallGMalloc0 len] /\
     colo_proxy_sock_receive s w = sock_receive_deliver s buf len w1).
Proof.
  remember (colo_proxy_sock_receive s w) as o eqn:Ho.
  unfold colo_proxy_sock_receive in Ho. unfold bind at 1 in Ho.
  destruct (iov_recv_trace (sockfd s) (ssize_t_bytes 0)
              (Z.of_nat sizeof_ssize_t) w) as (r & lenbytes & w1 & Hr & Ht1 & _).
  rewrite Hr in Ho.
  destruct (Z.ltb_spec 0 (ssize_t_value lenbytes)) as [Hpos | Hneg];
    [ | left; exists w1; split; [exact Ho | exact Ht1]].
  destruct (Z.ltb_spec (ssize_t_value lenbytes) NET_BUFSIZE) as [Hlt | Hge];
    [ | left; exists w1; split; [exact Ho | exact Ht1]].
  cbv [andb] in Ho. unfold g_malloc0, call, ret, bind in Ho.
  destruct (iov_recv_trace (sockfd s)
              (repeat Byte.x00 (Z.to_nat (ssize_t_value lenbytes)))
              (ssize_t_value lenbytes)
              (set_trace (trace w1 ++ [CallGMalloc0 (ssize_t_value lenbytes)]) w1))
    as (r2 & buf & w3 & Hr2 & Ht3 & Hlen).
  rewrite Hr2 in Ho.
  right. exists (ssize_t_value lenbytes), buf, w3.
  split; [lia | ]. split; [ | split; [ | exact Ho]].
  - rewrite Hlen; rewrite repeat_length; [lia | ].
    unfold to_size_t. apply Z2Nat.inj_le; [ | lia | ].
    + apply Z.mod_pos_bound. lia.
    + apply Z.mod_le; lia.
  - rewrite Ht3. world_simpl. now rewrite Ht1.
Qed.

Lemma skipn_repeat {A} (x : A) (k n : nat) :
  skipn k (repeat x n) = repeat x (n - k).
Proof.
  revert k. induction n as [ | n IH]; intros [ | k]; simpl; auto.
Qed.

(** Reading a stream that ends before the buffer is full. *)
Lemma iov_recv_short (fd : Z) (buf part : list byte) (n : Z) (w : World) :
  0 <= fd -> 0 <= n < 2 ^ 64 ->
  (length part <= Z.to_nat n)%nat ->
  sock_rx w fd = part ->
  iov_recv fd buf n w
    = Returns (Z.of_nat (length part), part ++ skipn (length part) buf)
              (set_sock_rx (upd (sock_rx w) fd []) w).
Proof.
  intros Hfd Hn Hlen Hrx. unfold iov_recv, to_size_t.
  destruct (Z.leb_spec 0 fd); [ | lia].
  rewrite Z.mod_small by lia. rewrite Hrx.
  rewrite firstn_all2 by exact Hlen.
  replace (skipn (Z.to_nat n) part) with (@nil byte)
    by (symmetry; apply skipn_all2; exact Hlen).
  reflexivity.
Qed.

(** X6.  The handler never looks at what [iov_recv] returns: when the
    stream ends inside the payload of an accepted frame, the bytes that did
    arrive are delivered all the same, followed by zero bytes up to the
    declared length. *)
Theorem sock_receive_pads_truncated_payload
    (s : COLOProxyState) (n : Z) (part : list byte) (w : World) :
  0 < n < 2 ^ 63 -> n < NET_BUFSIZE ->
  0 <= sockfd s ->
  Z.of_nat (length part) <= n ->
  sock_rx w (sockfd s) = ssize_t_bytes n ++ part ->
  colo_proxy_sock_receive s w
    = sock_receive_deliver s
        (part ++ repeat Byte.x00 (Z.to_nat n - length part)) n
        (set_trace (trace w ++ [CallGMalloc0 n])
           (set_sock_rx (upd (sock_rx w) (sockfd s) []) w)).
Proof.
  intros Hn Hbuf Hfd Hpart Hrx. unfold colo_proxy_sock_receive.
  assert (H8 : 0 <= Z.of_nat sizeof_ssize_t < 2 ^ 64)
    by (change (Z.of_nat sizeof_ssize_t) with 8; lia).
  assert (Hn64 : 0 <= n < 2 ^ 64) by lia.
  unfold bind at 1.
  rewrite (iov_recv_exact _ _ (ssize_t_bytes n) part);
    [ | assumption | assumption
      | now rewrite ssize_t_bytes_length, Nat2Z.id
      | now rewrite !ssize_t_bytes_length
      | assumption ].
  rewrite ssize_t_value_bytes by lia.
  destruct (Z.ltb_spec 0 n); [ | lia].
  destruct (Z.ltb_spec n NET_BUFSIZE); [ | lia]. cbv [andb].
  unfold g_malloc0, call, ret, bind.
  rewrite (iov_recv_short _ _ part);
    [ | assumption | assumption | lia | world_simpl; now rewrite upd_same ].
  rewrite skipn_repeat.
  unfold set_sock_rx, set_trace. world_simpl. rewrite upd_upd. reflexivity.
Qed.

(** X7.  A length prefix that is zero or negative makes the handler do
    nothing beyond reading it: no buffer, no delivery, the filter as it
    was; and with nothing at all to read, the world is left exactly as it
    is. *)
Theorem sock_receive_skips_empty_frame
    (s : COLOProxyState) (len : Z) (rest : list byte) (w : World) :
  0 <= sockfd s ->
  (- 2 ^ 63 <= len <= 0 ->
   sock_rx w (sockfd s) = ssize_t_bytes len ++ rest ->
   colo_proxy_sock_receive s w
     = Returns s (set_sock_rx (upd (sock_rx w) (sockfd s) rest) w)) /\
  (sock_rx w (sockfd s) = [] -> colo_proxy_sock_receive s w = Returns s w).
Proof.
  intros Hfd.
  assert (H8 : 0 <= Z.of_nat sizeof_ssize_t < 2 ^ 64)
    by (change (Z.of_nat sizeof_ssize_t) with 8; lia).
  split.
  - intros Hlen Hrx. unfold colo_proxy_sock_receive. unfold bind at 1.
    rewrite (iov_recv_exact _ _ (ssize_t_bytes len) rest);
      [ | assumption | assumption
        | now rewrite ssize_t_bytes_length, Nat2Z.id
        | now rewrite !ssize_t_bytes_length
        | assumption ].
    rewrite ssize_t_value_bytes by lia.
    now destruct (Z.ltb_spec 0 len); [lia | ].
  - intros Hrx. unfold colo_proxy_sock_receive. unfold bind at 1.
    rewrite (iov_recv_short _ _ []);
      [ | assumption | assumption | simpl; lia | assumption ].
    cbn [length skipn app]. rewrite ssize_t_value_zero. cbn [Z.ltb Z.compare andb].
    now rewrite set_sock_rx_same.
Qed.

(** X8.  Frames keep their order and their boundaries: when a live sender
    sends two non-empty payloads one after the other, what it has written
    is the first frame followed by the second; and a secondary whose stream
    holds two frames (payloads below [NET_BUFSIZE]) hands the first payload
    to the net queue on the first run of the handler and the second on the
    next, leaving what follows in the stream. *)
Theorem frames_keep_order
    (snd_s rcv_s : COLOProxyState) (iov1 iov2 : list (list byte))
    (rest : list byte) (wa wb : World) :
  let p1 := concat iov1 in
  let p2 := concat iov2 in
  let n1 := Z.of_nat (length p1) in
  let n2 := Z.of_nat (length p2) in
  0 < n1 < 2 ^ 63 -> 0 < n2 < 2 ^ 63 ->
  (0 <= sockfd snd_s -> link_up (host wa) (sockfd snd_s) = true ->
   exists wa',
     ('(s, _) <- colo_proxy_sock_send snd_s iov1 ;; colo_proxy_sock_send s iov2) wa
       = Returns (snd_s, n2) wa' /\
     sock_tx wa' (sockfd snd_s)
       = sock_tx wa (sockfd snd_s)
         ++ (ssize_t_bytes n1 ++ p1) ++ (ssize_t_bytes n2 ++ p2)) /\
  (n1 < NET_BUFSIZE -> n2 < NET_BUFSIZE ->
   0 <= sockfd rcv_s -> colo_mode rcv_s = COLO_MODE_SECONDARY ->
   sock_rx wb (sockfd rcv_s)
     = (ssize_t_bytes n1 ++ p1) ++ (ssize_t_bytes n2 ++ p2) ++ rest ->
   exists wb',
     (s <- colo_proxy_sock_receive rcv_s ;; colo_proxy_sock_receive s) wb
       = Returns rcv_s wb' /\
     trace wb' = trace wb ++ [CallGMalloc0 n1; CallNetQueueSend p1 n1;
                              CallGMalloc0 n2; CallNetQueueSend p2 n2] /\
     sock_rx wb' (sockfd rcv_s) = rest).
Proof.
  intros p1 p2 n1 n2 H1 H2. split.
  - intros Hfd Hup. unfold bind at 1.
    rewrite sock_send_frame by assumption. fold p1 n1.
    rewrite sock_send_frame; [ | assumption | assumption | exact Hup].
    fold p2 n2. eexists. split; [reflexivity | ].
    world_simpl. rewrite !upd_same. now rewrite <- !app_assoc.
  - intros Hb1 Hb2 Hfd Hmode Hrx. unfold bind at 1.
    rewrite (sock_receive_frame rcv_s p1 ((ssize_t_bytes n2 ++ p2) ++ rest));
      [ | assumption | assumption | assumption
        | fold n1; rewrite Hrx; now rewrite <- !app_assoc ].
    fold n1. unfold sock_receive_deliver at 1. rewrite Hmode. cbn [mode_eqb].
    unfold qemu_net_queue_send. unfold bind at 1. unfold call at 1.
    cbv beta iota. unfold ret at 1.
    rewrite (sock_receive_frame rcv_s p2 rest);
      [ | assumption | assumption | assumption
        | world_simpl; rewrite upd_same; fold n2; now rewrite <- !app_assoc ].
    fold n2. unfold sock_receive_deliver. rewrite Hmode. cbn [mode_eqb].
    unfold qemu_net_queue_send. eexists. split; [reflexivity | ].
    step_calls. split; [reflexivity | ]. now rewrite upd_same.
Qed.

(** ** The lifecycle at its edges *)

Lemma interrupted_test (a e : Z) :
  (a <? 0) && (e =? EINTR) = true <-> interrupted (a, e).
Proof.
  unfold interrupted. simpl. rewrite andb_true_iff, Z.ltb_lt, Z.eqb_eq. tauto.
Qed.

Lemma accept_after_interrupts (fd : Z) (l : list (Z * Z)) (sock err : Z)
    (rest : list (Z * Z)) :
  Forall interrupted l -> ~ interrupted (sock, err) ->
  accept_result (l ++ (sock, err) :: rest) = Some (sock, err) /\
  accept_calls fd (l ++ (sock, err) :: rest)
    = map (accept_call fd) (l ++ [(sock, err)]).
Proof.
  intros Hl Hlast. induction Hl as [ | [a e] l Ha Hl IH]; simpl.
  - destruct ((sock <? 0) && (err =? EINTR)) eqn:E; [ | auto].
    apply interrupted_test in E. contradiction.
  - apply interrupted_test in Ha. rewrite Ha.
    destruct IH as [-> ->]. auto.
Qed.

Lemma accept_all_interrupted (fd : Z) (l : list (Z * Z)) :
  Forall interrupted l ->
  accept_result l = None /\ accept_calls fd l = map (accept_call fd) l.
Proof.
  intros Hl. induction Hl as [ | [a e] l Ha Hl IH]; simpl; auto.
  apply interrupted_test in Ha. rewrite Ha. destruct IH as [-> ->]. auto.
Qed.

Lemma wait_incoming_run (s : COLOProxyState) (w : World) :
  let fd := host_listen (host w) (addr s) in
  let answers := host_accept (host w) fd in
  colo_wait_incoming s w
  = if fd <? 0
    then Returns (s, -1)
           (set_trace (trace w ++ [CallInetListen (addr s) fd;
                                   CallErrorReport "colo proxy listen failed"]) w)
    else
      match accept_result answers with
      | None =>
          Blocked (set_trace (trace w ++ CallInetListen (addr s) fd
                                :: accept_calls fd answers) w)
      | Some (sock, err) =>
          Returns (if sock <? 0 then (s, -1) else (set_sockfd sock s, 0))
            (set_trace (trace w ++ CallInetListen (addr s) fd
                          :: accept_calls fd answers
                          ++ [CallCloseSocket fd;
                              if sock <? 0
                              then CallErrorReportStrerror
                                     "colo proxy accept failed(%s)" err
                              else CallSetFdHandler sock true]) w)
      end.
Proof.
  intros fd answers. unfold colo_wait_incoming.
  unfold bind at 1. fold fd. unfold bind at 1. rewrite call_run.
  destruct (fd <? 0).
  - step_calls. reflexivity.
  - unfold bind at 1. cbn [host set_trace]. fold answers.
    rewrite accept_retry_run.
    destruct (accept_result answers) as [[sock err] | ]; [ | reflexivity].
    unfold bind at 1. rewrite call_after.
    destruct (sock <? 0).
    + unfold bind at 1. rewrite call_after. unfold ret.
      now rewrite <- !app_assoc.
    + unfold bind at 1. cbn [sockfd set_sockfd]. rewrite call_after. unfold ret.
      now rewrite <- !app_assoc.
Qed.

(** X9.  [colo_wait_incoming] tries [qemu_accept] again after every answer
    that is negative with [errno] EINTR and stops at the first other answer:
    however often it was interrupted, the result is that of the last
    answer (the accepted socket in [sockfd] and 0, or -1 with the filter
    unchanged), and the listening socket is closed in both cases before
    anything else happens: before the read handler is installed on the
    accepted socket, or before
    [error_report("colo proxy accept failed(%s)", strerror(err))] with the
    error number of that last answer.  While all answers are interruptions
    it does not return and the listening socket stays open. *)
Theorem wait_incoming_retries_interrupted_accept
    (s : COLOProxyState) (w : World) (l : list (Z * Z)) (sock err : Z)
    (rest : list (Z * Z)) :
  let fd := host_listen (host w) (addr s) in
  0 <= fd -> Forall interrupted l ->
  (host_accept (host w) fd = l ++ (sock, err) :: rest ->
   ~ interrupted (sock, err) ->
   colo_wait_incoming s w
   = Returns (if sock <? 0 then (s, -1) else (set_sockfd sock s, 0))
       (set_trace (trace w ++ CallInetListen (addr s) fd
                     :: map (accept_call fd) (l ++ [(sock, err)])
                     ++ [CallCloseSocket fd;
                         if sock <? 0
                         then CallErrorReportStrerror
                                "colo proxy accept failed(%s)" err
                         else CallSetFdHandler sock true]) w)) /\
  (host_accept (host w) fd = l ->
   colo_wait_incoming s w
   = Blocked (set_trace (trace w ++ CallInetListen (addr s) fd
                           :: map (accept_call fd) l) w)).
Proof.
  intros fd Hfd Hl. pose proof (wait_incoming_run s w) as Hrun.
  cbv zeta in Hrun. fold fd in Hrun.
  destruct (Z.ltb_spec fd 0); [lia | ]. split.
  - intros Hans Hlast. rewrite Hans in Hrun.
    destruct (accept_after_interrupts fd l sock err rest Hl Hlast) as [Hr Hc].
    now rewrite Hr, Hc in Hrun.
  - intros Hans. rewrite Hans in Hrun.
    destruct (accept_all_interrupted fd l Hl) as [Hr Hc].
    now rewrite Hr, Hc in Hrun.
Qed.

(** X10.  [colo_proxy_stop_one] closes the socket but leaves its number in
    [sockfd], and [colo_proxy_cleanup] closes whatever [sockfd] holds: a
    filter with a socket that is stopped and then cleaned up has the same
    descriptor closed twice, and ends done, with [sockfd] -1 and its event
    destroyed. *)
Theorem stop_then_cleanup_closes_twice (nf : COLOProxyState) (w : World) :
  typename nf = TYPE_FILTER_COLO_PROXY -> 0 <= sockfd nf ->
  exists s' w' between,
    ('(s, _) <- colo_proxy_stop_one nf (colo_mode nf) ;; colo_proxy_cleanup s) w
      = Returns s' w' /\
    sockfd s' = -1 /\ status s' = COLO_PROXY_DONE /\ need_compare_ev s' = None /\
    trace w' = trace w
               ++ [CallSetFdHandler (sockfd nf) false; CallCloseSocket (sockfd nf)]
               ++ between
               ++ [CallClose (sockfd nf); CallEventDestroy].
Proof.
  intros Hty Hfd. apply typename_eqb in Hty.
  unfold bind at 1. rewrite (stop_one_run nf w Hty).
  destruct (Z.leb_spec 0 (sockfd nf)); [ | lia].
  unfold colo_proxy_cleanup.
  destruct (colo_mode nf); step_calls.
  - do 2 eexists.
    exists [CallPrimaryCheckpoint; CallEventSet; CallThreadJoin (thread nf)].
    repeat split.
  - do 2 eexists. exists [CallSecondaryCheckpoint]. repeat split.
Qed.


Lemma set_net_filters_same (w : World) :
  set_net_filters (net_filters w) w = w.
Proof. now destruct w. Qed.

Lemma foreach_aborts
    (func : COLOProxyState -> M (COLOProxyState * option string))
    (pre post : list COLOProxyState) (nf : COLOProxyState) (w : World) :
  Forall (fun nf => forall w, func nf w = Returns (nf, None) w) pre ->
  func nf w = AssertionFailed w ->
  qemu_foreach_netfilter func (pre ++ nf :: post) w = AssertionFailed w.
Proof.
  intros Hpre Hnf. induction Hpre as [ | x pre Hx Hpre IH]; simpl.
  - unfold bind. now rewrite Hnf.
  - unfold bind at 1. rewrite Hx. unfold bind. now rewrite IH.
Qed.

(** X12.  On a machine without a colo-proxy filter, [colo_proxy_start]
    reports success (0) and [colo_proxy_stop] returns, and neither touches
    a filter, a socket or anything else. *)
Theorem start_stop_without_proxy_filter (mode : COLOMode) (w : World) :
  Forall other_filter (net_filters w) ->
  colo_proxy_start mode w = Returns 0 w /\
  colo_proxy_stop mode w = Returns tt w.
Proof.
  intros Hall. unfold colo_proxy_start, colo_proxy_stop, bind. split.
  - rewrite foreach_skip.
    + now rewrite set_net_filters_same.
    + eapply Forall_impl; [ | exact Hall]. intros; now apply start_one_skip.
  - rewrite foreach_skip.
    + now rewrite set_net_filters_same.
    + eapply Forall_impl; [ | exact Hall]. intros; now apply stop_one_skip.
Qed.

(** X13.  Starting or stopping in a mode other than the one the
    colo-proxy filter is configured for fails the [assert] and ends the
    program there: no socket call is made and no filter is changed. *)
Theorem start_stop_in_other_mode_aborts
    (mode : COLOMode) (pre post : list COLOProxyState) (nf : COLOProxyState)
    (w : World) :
  net_filters w = pre ++ nf :: post ->
  Forall other_filter pre ->
  typename nf = TYPE_FILTER_COLO_PROXY ->
  colo_mode nf <> mode ->
  colo_proxy_start mode w = AssertionFailed w /\
  colo_proxy_stop mode w = AssertionFailed w.
Proof.
  intros Hnf Hpre Hty Hmode. apply typename_eqb in Hty.
  assert (Hneq : mode_eqb (colo_mode nf) mode = false).
  { destruct (mode_eqb (colo_mode nf) mode) eqn:E; auto.
    apply mode_eqb_eq in E. contradiction. }
  unfold colo_proxy_start, colo_proxy_stop, bind. rewrite Hnf. split.
  - rewrite foreach_aborts; auto.
    + eapply Forall_impl; [ | exact Hpre]. intros; now apply start_one_skip.
    + unfold colo_proxy_start_one. rewrite Hty, Hneq. reflexivity.
  - rewrite foreach_aborts; auto.
    + eapply Forall_impl; [ | exact Hpre]. intros; now apply stop_one_skip.
    + unfold colo_proxy_stop_one. rewrite Hty, Hneq. reflexivity.
Qed.

Lemma table_kept (r : list (ConnectionKey * Connection)) (op : Op) :
  writes_table op = false ->
  keeps (fun w => colo_conn_hash w = r) (run_op op).
Proof.
  intros Hop. destruct op; try discriminate Hop; simpl.
  - unfold colo_proxy_query_checkpoint. keeps_auto.
  - apply keeps_on_filter; auto. intros s.
    apply keeps_bind; [apply keeps_cleanup; auto | intros; apply keeps_ret].
  - apply keeps_bind; [apply keeps_start; auto | intros; apply keeps_ret].
  - apply keeps_on_filter; auto. intros s. apply keeps_sock_send; auto.
  - apply keeps_on_filter; auto. intros s. apply keeps_receive_iov; auto.
Qed.

(** X14.  Polling the flag, cleanup, start, sending a frame and the arrival
    of a packet leave the table of connections, with every flow and every
    queue in it, exactly as it is, whatever the filters and the world are
    and however the operation ends.  The table can change only through the
    setup of a filter, the socket handler, the comparison scan, and stop,
    whose checkpoint helpers are not part of colo-proxy.c. *)
Theorem table_kept_by_poll_cleanup_start_send_arrival (op : Op) (w : World) :
  writes_table op = false ->
  colo_conn_hash (outcome_world (run_op op w)) = colo_conn_hash w.
Proof.
  intros Hop. now apply (table_kept (colo_conn_hash w) op Hop w).
Qed.

(** ** Configuration and setup *)

(** X15.  [colo_proxy_setup] refuses a filter without an address or with a
    direction other than all, and then changes nothing at all.  A filter it
    accepts gets no socket, an initialised event and empty bookkeeping while
    its status, mode and address stay; the shared table of connections and
    the checkpoint flag are reset whatever they held.  Until the filter is
    started its socket handler does nothing, and unless it already runs the
    packet path returns 0. *)
Theorem setup_rejects_or_resets (nf : COLOProxyState) (w : World) :
  (addr nf = None \/ direction nf <> NET_FILTER_DIRECTION_ALL ->
   exists e, colo_proxy_setup nf w = Returns (nf, Some e) w) /\
  (addr nf <> None -> direction nf = NET_FILTER_DIRECTION_ALL ->
   exists s' w',
     colo_proxy_setup nf w = Returns (s', None) w' /\
     sockfd s' = -1 /\ hashtable_size s' = 0 /\ conn_list s' = [] /\
     need_compare_ev s' = Some false /\
     status s' = status nf /\ colo_mode s' = colo_mode nf /\ addr s' = addr nf /\
     colo_conn_hash w' = [] /\ colo_do_checkpoint w' = false /\
     net_filters w' = net_filters w /\
     trace w' = trace w ++ [CallEventInit] /\
     colo_proxy_sock_receive s' w' = Returns s' w' /\
     (status nf <> COLO_PROXY_RUNNING ->
      forall sender flags iov sent_cb,
        colo_proxy_receive_iov s' sender flags iov sent_cb w'
          = Returns (s', 0) w')).
Proof.
  unfold colo_proxy_setup. split.
  - intros [Ha | Hd].
    + rewrite Ha. eexists. reflexivity.
    + destruct (addr nf); [ | eexists; reflexivity].
      destruct (direction nf); try contradiction; eexists; reflexivity.
  - intros Ha Hd. destruct (addr nf) as [a | ]; [ | contradiction].
    rewrite Hd. cbn [direction_eqb negb].
    do 2 eexists. split; [reflexivity | ].
    do 11 (split; [reflexivity | ]). split.
    + unfold colo_proxy_sock_receive, bind.
      rewrite iov_recv_bad_fd by (simpl; lia).
      now rewrite ssize_t_value_zero.
    + intros Hst sender flags iov sent_cb. unfold colo_proxy_receive_iov.
      cbn [status]. destruct (status_eqb (status nf) COLO_PROXY_RUNNING) eqn:E.
      * apply status_eqb_eq in E. contradiction.
      * reflexivity.
Qed.


(** ** The packet dump *)

Lemma hex_value_digit (n : Z) : 0 <= n < 16 -> hex_value (hex_digit n) = n.
Proof.
  intros Hn. replace n with (Z.of_nat (Z.to_nat n)) by lia.
  assert (Hk : (Z.to_nat n < 16)%nat) by lia.
  revert Hk. generalize (Z.to_nat n) as k. intros k.
  do 16 (destruct k as [ | k]; [intros _; reflexivity | ]).
  intros Hk. lia.
Qed.

Lemma printf_02x_inj (b b' : byte) : printf_02x b = printf_02x b' -> b = b'.
Proof.
  unfold printf_02x. intros Heq. injection Heq as Hhi Hlo.
  pose proof (byte.unsigned_range b) as Hb.
  pose proof (byte.unsigned_range b') as Hb'.
  apply (f_equal hex_value) in Hhi, Hlo.
  assert (Hq : forall u, 0 <= u < 2 ^ 8 -> 0 <= u / 16 < 16).
  { intros u Hu. split; [apply Z.div_pos; lia | apply Z.div_lt_upper_bound; lia]. }
  assert (Hr : forall u, 0 <= u mod 16 < 16)
    by (intros u; apply Z.mod_pos_bound; lia).
  rewrite !hex_value_digit in Hhi by auto.
  rewrite !hex_value_digit in Hlo by auto.
  apply byte.unsigned_inj.
  rewrite (Z.div_mod (byte.unsigned b) 16), (Z.div_mod (byte.unsigned b') 16) by lia.
  now rewrite Hhi, Hlo.
Qed.

Lemma string_length_append (a b : string) :
  String.length (a ++ b) = (String.length a + String.length b)%nat.
Proof. induction a as [ | c a IH]; simpl; auto. Qed.

Lemma string_append_inj (a a' b b' : string) :
  String.length a = String.length a' ->
  (a ++ b)%string = (a' ++ b')%string -> a = a' /\ b = b'.
Proof.
  revert a'. induction a as [ | c a IH]; intros [ | c' a'] Hlen Heq;
    simpl in *; try discriminate; auto.
  injection Heq as -> Heq. injection Hlen as Hlen.
  destruct (IH a' Hlen Heq) as [-> ->]. auto.
Qed.

Lemma dump_bytes_length (count : nat) (bs : list byte) (out : string) :
  dump_bytes count bs = Some out -> String.length out = (3 * count)%nat.
Proof.
  revert bs out. induction count as [ | count IH]; intros bs out; simpl.
  - intros H. injection H as <-. reflexivity.
  - destruct bs as [ | b bs]; [discriminate | ].
    destruct (dump_bytes count bs) as [o | ] eqn:E; [ | discriminate].
    intros H. injection H as <-. simpl. rewrite (IH bs o E). lia.
Qed.

Lemma dump_bytes_defined (count : nat) (bs : list byte) :
  (count <= length bs)%nat -> exists out, dump_bytes count bs = Some out.
Proof.
  revert bs. induction count as [ | count IH]; intros bs Hlen; simpl.
  - eexists. reflexivity.
  - destruct bs as [ | b bs]; [simpl in Hlen; lia | ].
    destruct (IH bs) as [o ->]; [simpl in Hlen; lia | ]. eexists. reflexivity.
Qed.

Lemma dump_bytes_inj (count : nat) (bs bs' : list byte) (out : string) :
  dump_bytes count bs = Some out -> dump_bytes count bs' = Some out ->
  firstn count bs' = firstn count bs.
Proof.
  revert bs bs' out.
  induction count as [ | count IH]; intros bs bs' out;
    cbn [dump_bytes firstn]; auto.
  destruct bs as [ | b bs]; [discriminate | ].
  destruct bs' as [ | b' bs']; [discriminate | ].
  destruct (dump_bytes count bs) as [o | ] eqn:E; [ | discriminate].
  destruct (dump_bytes count bs') as [o' | ] eqn:E'; [ | discriminate].
  intros H H'.
  assert (Hs : (printf_02x b' ++ o')%string = (printf_02x b ++ o)%string)
    by congruence.
  apply string_append_inj in Hs; [ | reflexivity].
  destruct Hs as [Hb Ho]. apply printf_02x_inj in Hb. subst.
  now rewrite (IH bs bs' o E E').
Qed.

(** X17.  For a packet whose size lies within its buffer,
    [colo_proxy_dump_packet] prints three characters for each byte and one
    newline, and the dump loses nothing: a packet of the same size that
    prints the same has the same bytes. *)
Theorem dump_packet_is_lossless (pkt : Packet) :
  0 <= size pkt <= Z.of_nat (length (data pkt)) ->
  exists out,
    colo_proxy_dump_packet pkt = Some out /\
    Z.of_nat (String.length out) = 3 * size pkt + 1 /\
    forall pkt',
      size pkt' = size pkt ->
      colo_proxy_dump_packet pkt' = Some out ->
      firstn (Z.to_nat (size pkt)) (data pkt')
        = firstn (Z.to_nat (size pkt)) (data pkt).
Proof.
  intros Hsize. unfold colo_proxy_dump_packet.
  destruct (dump_bytes_defined (Z.to_nat (size pkt)) (data pkt)) as [o Ho]; [lia | ].
  rewrite Ho. eexists. split; [reflexivity | ]. split.
  - rewrite string_length_append, (dump_bytes_length _ _ _ Ho).
    cbn [String.length]. lia.
  - intros pkt' Hsame. rewrite Hsame.
    destruct (dump_bytes (Z.to_nat (size pkt)) (data pkt')) as [o' | ] eqn:Ho';
      [ | discriminate].
    intros H.
    assert (Hs : (o' ++ String "010" EmptyString)%string
                 = (o ++ String "010" EmptyString)%string) by congruence.
    apply string_append_inj in Hs.
    + destruct Hs as [-> _]. exact (dump_bytes_inj _ _ _ _ Ho Ho').
    + now rewrite (dump_bytes_length _ _ _ Ho), (dump_bytes_length _ _ _ Ho').
Qed.

End Edges.

(** * The properties on the concrete machine *)

(** C10 on a packet of four bytes: 0 before the proxy runs, 4 while it
    runs, the world untouched both times. *)
Lemma receive_iov_returns_size_witness :
  let w := lab_world (lab_host 7 9) (lab_filter COLO_MODE_PRIMARY COLO_PROXY_NONE)
             [] false [] in
  colo_proxy_receive_iov (lab_filter COLO_MODE_PRIMARY COLO_PROXY_NONE)
    1 0 [deadbeef] None w
    = Returns (lab_filter COLO_MODE_PRIMARY COLO_PROXY_NONE, 0) w /\
  colo_proxy_receive_iov (lab_filter COLO_MODE_PRIMARY COLO_PROXY_RUNNING)
    1 0 [deadbeef] None w
    = Returns (lab_filter COLO_MODE_PRIMARY COLO_PROXY_RUNNING, 4) w.
Proof.
  intros w. split.
  - apply (proj1 (receive_iov_returns_size_and_keeps_state
                    (lab_filter COLO_MODE_PRIMARY COLO_PROXY_NONE)
                    1 0 [deadbeef] None w)).
    discriminate.
  - destruct (proj2 (receive_iov_returns_size_and_keeps_state
                       (lab_filter COLO_MODE_PRIMARY COLO_PROXY_RUNNING)
                       1 0 [deadbeef] None w) eq_refl) as [Hrun Hsize].
    rewrite Hrun, Hsize; reflexivity.
Defined.

(** C1.  The code does not do what the comment at the head of
    [colo_proxy_receive_iov] announces ("We return size when buffer a
    packet").  A running primary filter with an empty table is handed the
    buffer DE AD BE EF, which the classifier keys as the flow 222.  The
    function returns 4, the size of the buffer, and the filter and the
    world are the ones it started with: the key has no Connection in the
    table, the buffer is in no queue of any flow, and no call has left the
    function.  A running secondary filter gives the same. *)
Lemma receive_iov_does_not_enqueue :
  let s := lab_filter COLO_MODE_PRIMARY COLO_PROXY_RUNNING in
  let s2 := lab_filter COLO_MODE_SECONDARY COLO_PROXY_RUNNING in
  let w := lab_world (lab_host 7 9) s [] false [] in
  status s = COLO_PROXY_RUNNING /\
  parse_packet (Externals := lab_externals) deadbeef 4
    = Some (14, 34, lab_key 222) /\
  match colo_proxy_receive_iov s 1 0 [deadbeef] None w with
  | Returns (s', n) w' =>
      n = 4 /\ s' = s /\ w' = w /\
      registry_lookup (lab_key 222) (colo_conn_hash w') = None /\
      colo_conn_hash w' = [] /\
      packet_queued deadbeef (colo_conn_hash w') = false /\
      trace w' = []
  | _ => False
  end /\
  colo_proxy_receive_iov s2 1 0 [deadbeef] None w = Returns (s2, 4) w.
Proof. vm_compute. repeat split. Qed.

(** C4 on the frame DE AD BE EF. *)
Lemma sock_send_receive_round_trip_witness :
  let snd_s := lab_filter COLO_MODE_PRIMARY COLO_PROXY_RUNNING in
  let rcv_s := lab_filter COLO_MODE_SECONDARY COLO_PROXY_RUNNING in
  let wa := lab_world (lab_host 7 9) snd_s [] false [] in
  let wb := lab_world (lab_host 7 9) rcv_s [] false (ssize_t_bytes 4 ++ deadbeef) in
  exists wa',
    colo_proxy_sock_send snd_s [deadbeef] wa = Returns (snd_s, 4) wa' /\
    sock_tx wa' 7 = ssize_t_bytes 4 ++ deadbeef /\
    colo_proxy_sock_receive (ext := lab_externals) rcv_s wb
      = sock_receive_deliver (ext := lab_externals) rcv_s deadbeef 4
          (set_trace [CallGMalloc0 4]
             (set_sock_rx (upd (sock_rx wb) 7 []) wb)).
Proof.
  intros snd_s rcv_s wa wb.
  destruct (proj2 (sock_send_receive_round_trip (ext := lab_externals)
                     snd_s rcv_s [deadbeef] [] wa wb))
    as (wa' & Hsend & Htx & Hrecv).
  - cbn. lia.
  - cbn. lia.
  - reflexivity.
  - exists wa'. split; [exact Hsend | ]. split; [exact Htx | ].
    apply Hrecv.
    + cbn. lia.
    + cbn. lia.
    + reflexivity.
Defined.

(** C4 as stated fails: for an empty payload on a live connection nothing
    is written, not even a length prefix. *)
Lemma sock_send_empty_payload_writes_nothing :
  let s := lab_filter COLO_MODE_PRIMARY COLO_PROXY_RUNNING in
  let w := lab_world (lab_host 7 9) s [] false [] in
  link_up (host w) (sockfd s) = true /\
  match colo_proxy_sock_send s [[]] w with
  | Returns (_, r) w' =>
      r = 0 /\ sock_tx w' (sockfd s) = [] /\
      sock_tx w' (sockfd s) <> sock_tx w (sockfd s) ++ ssize_t_bytes 0 ++ concat [[]]
  | _ => False
  end.
Proof. vm_compute. repeat split. discriminate. Qed.

(** C5 on a frame that declares [NET_BUFSIZE] bytes. *)
Lemma sock_receive_oversized_frame_witness :
  let s := lab_filter COLO_MODE_SECONDARY COLO_PROXY_RUNNING in
  let w := lab_world (lab_host 7 9) s [] false
             (ssize_t_bytes (4096 + 65536) ++ deadbeef) in
  colo_proxy_sock_receive (ext := lab_externals) s w
    = Returns s (set_sock_rx (upd (sock_rx w) 7 deadbeef) w).
Proof.
  intros s w.
  apply (sock_receive_oversized_frame_ignored (ext := lab_externals)
           s (4096 + 65536) deadbeef w).
  - lia.
  - cbn. lia.
  - cbn. lia.
  - reflexivity.
Defined.

(** C5 as stated fails: after a frame that declares [NET_BUFSIZE] bytes the
    proxy is still running, not done, and nothing was reported. *)
Lemma sock_receive_oversized_frame_keeps_running :
  let s := lab_filter COLO_MODE_SECONDARY COLO_PROXY_RUNNING in
  let w := lab_world (lab_host 7 9) s [] false
             (ssize_t_bytes (4096 + 65536) ++ deadbeef) in
  match colo_proxy_sock_receive (ext := lab_externals) s w with
  | Returns s' w' =>
      status s' = COLO_PROXY_RUNNING /\ status s' <> COLO_PROXY_DONE /\
      trace w' = []
  | _ => False
  end.
Proof. vm_compute. repeat split. discriminate. Qed.

(** C3 on a machine whose flag is raised: polling, a packet, a frame from
    the peer, a scan and a stop leave it raised. *)
Lemma checkpoint_flag_witness :
  let s := lab_filter COLO_MODE_PRIMARY COLO_PROXY_RUNNING in
  let w := lab_world (lab_host 7 9) s [] true (ssize_t_bytes 4 ++ deadbeef) in
  colo_do_checkpoint
    (run_ops (ext := lab_externals)
       [OpQueryCheckpoint; OpReceiveIov 1 1 0 [deadbeef] None; OpSockReceive 1;
        OpCompareScan; OpStop COLO_MODE_PRIMARY] w) = true /\
  colo_do_checkpoint
    (outcome_world (colo_proxy_setup s w)) = false.
Proof.
  intros s w.
  destruct (checkpoint_flag_cleared_only_by_setup (ext := lab_externals) w)
    as (_ & _ & Hsticky & Hsetup).
  split.
  - apply Hsticky; reflexivity.
  - apply (Hsetup s "192.168.0.100:12345"%string); reflexivity.
Defined.

(** C3 as stated fails: setting up a filter, which is no checkpoint
    handshake, resets a raised flag. *)
Lemma setup_clears_checkpoint_flag :
  let s := lab_filter COLO_MODE_PRIMARY COLO_PROXY_NONE in
  let w := lab_world (lab_host 7 9) s [] true [] in
  colo_do_checkpoint w = true /\
  colo_do_checkpoint
    (outcome_world (run_op (ext := lab_externals) (OpSetup 1) w)) = false.
Proof. vm_compute. split; reflexivity. Qed.



(** C2 on a flow whose second packets differ: the first pair is dequeued,
    the second stays, and the flag is raised. *)
Lemma compare_scan_witness :
  let s := lab_filter COLO_MODE_PRIMARY COLO_PROXY_RUNNING in
  let w := lab_world (lab_host 7 9) s [(lab_key 1, diverging_flow)] false [] in
  exists w' c',
    colo_proxy_compare_scan (ext := lab_externals) w = Returns tt w' /\
    In (lab_key 1, c') (colo_conn_hash w') /\
    primary_list c' = [lab_packet [Byte.xbb]] /\
    secondary_list c' = [lab_packet [Byte.xff]] /\
    colo_do_checkpoint w' = true.
Proof.
  intros s w.
  destruct (compare_scan_raises_checkpoint_on_divergence (ext := lab_externals)
              w (lab_key 1) diverging_flow)
    as (w' & c' & n & Hrun & Hin & _ & Hp & Hq & Hall & Hmis & _).
  - left. reflexivity.
  - reflexivity.
  - exists w', c'. split; [exact Hrun | ]. split; [exact Hin | ].
    destruct n as [ | [ | n]].
    + destruct (Hmis _ _ _ _ Hp Hq) as [Hne _]. discriminate Hne.
    + split; [exact Hp | ]. split; [exact Hq | ].
      exact (proj2 (Hmis _ _ _ _ Hp Hq)).
    + exfalso. simpl in Hall.
      inversion Hall as [ | a1 b1 l1 l1' _ Htail]; subst.
      inversion Htail as [ | a2 b2 l2 l2' Hsame _]; subst.
      discriminate Hsame.
Defined.


(** C8 on a running primary filter with its socket on descriptor 7. *)
Lemma colo_proxy_stop_witness :
  let p := lab_filter COLO_MODE_PRIMARY COLO_PROXY_RUNNING in
  exists nf' w',
    colo_proxy_stop COLO_MODE_PRIMARY (lab_world (lab_host 7 9) p [] false [])
      = Returns tt w' /\
    net_filters w' = [buffer_filter; nf'] /\
    status nf' = COLO_PROXY_DONE /\
    trace w' = [CallSetFdHandler 7 false; CallCloseSocket 7;
                CallPrimaryCheckpoint; CallEventSet; CallThreadJoin None].
Proof.
  intros p.
  assert (Hother : Forall other_filter [buffer_filter])
    by (constructor; [reflexivity | constructor]).
  destruct (colo_proxy_stop_tears_down [buffer_filter] [] p
              (lab_world (lab_host 7 9) p [] false [])
              eq_refl Hother (Forall_nil _) eq_refl)
    as (nf' & w' & teardown & final & Hrun & Hnf & Hst & Htr & Hdown & Hprim & _).
  exists nf', w'. split; [exact Hrun | ]. split; [exact Hnf | ].
  split; [exact Hst | ].
  rewrite Htr, Hdown, (proj1 (Hprim eq_refl)); [reflexivity | cbn; lia].
Defined.

(** C9 on the frame DE AD BE EF, in both modes. *)
Lemma sock_receive_delivers_witness :
  let p := lab_filter COLO_MODE_PRIMARY COLO_PROXY_RUNNING in
  let q := lab_filter COLO_MODE_SECONDARY COLO_PROXY_RUNNING in
  let rx := ssize_t_bytes 4 ++ deadbeef in
  (exists s' w',
     colo_proxy_sock_receive (ext := lab_externals) p
       (lab_world (lab_host 7 9) p [] false rx) = Returns s' w' /\
     registry_lookup (lab_key 222) (colo_conn_hash w')
       = Some {| primary_list := []; secondary_list := [lab_packet deadbeef];
                 processing := true; conn_ip_proto := 6 |} /\
     need_compare_ev s' = Some true) /\
  (exists w',
     colo_proxy_sock_receive (ext := lab_externals) q
       (lab_world (lab_host 7 9) q [] false rx) = Returns q w' /\
     trace w' = [CallGMalloc0 4; CallNetQueueSend deadbeef 4] /\
     colo_conn_hash w' = []).
Proof.
  intros p q rx. split.
  - destruct (proj1 (sock_receive_delivers_by_mode (ext := lab_externals)
                       p deadbeef [] (lab_world (lab_host 7 9) p [] false rx)
                       ltac:(cbn; lia) ltac:(cbn; lia) ltac:(cbn; lia) eq_refl)
                eq_refl 14 34 (lab_key 222) eq_refl)
      as (s' & w' & calls & Hrun & Hlook & Hev & _).
    exists s', w'. split; [exact Hrun | ]. split; [exact Hlook | exact Hev].
  - destruct (proj2 (sock_receive_delivers_by_mode (ext := lab_externals)
                       q deadbeef [] (lab_world (lab_host 7 9) q [] false rx)
                       ltac:(cbn; lia) ltac:(cbn; lia) ltac:(cbn; lia) eq_refl)
                eq_refl)
      as (w' & Hrun & Htr & Hhash & _).
    exists w'. split; [exact Hrun | ]. split; [exact Htr | exact Hhash].
Defined.

Lemma lab_key_in_range (a : Z) : 0 <= a < 2 ^ 32 -> key_in_range (lab_key a).
Proof. intros Ha. unfold key_in_range. cbn. lia. Defined.

(** X1 on two flows of the concrete machine. *)
Lemma connection_key_equal_is_memcmp_witness :
  connection_key_equal_memcmp (lab_key 1) (lab_key 2) = false /\
  connection_key_equal_memcmp (lab_key 1) (lab_key 1) = true.
Proof.
  split.
  - rewrite (proj1 (connection_key_equal_is_memcmp (lab_key 1) (lab_key 2)
                      (lab_key_in_range 1 ltac:(lia))
                      (lab_key_in_range 2 ltac:(lia)))).
    reflexivity.
  - apply (proj2 (connection_key_equal_is_memcmp (lab_key 1) (lab_key 1)
                    (lab_key_in_range 1 ltac:(lia))
                    (lab_key_in_range 1 ltac:(lia)))).
    reflexivity.
Defined.

(** X2 on two flows that differ in the source address: they reach the
    mixer with different words. *)
Lemma connection_key_hash_words_witness :
  connection_key_hash_words (J := lab_jhash) (lab_key 1)
  <> connection_key_hash_words (J := lab_jhash) (lab_key 2).
Proof.
  intros Heq.
  pose proof (connection_key_hash_words_determine_key (J := lab_jhash)
                (lab_key 1) (lab_key 2)
                (lab_key_in_range 1 ltac:(lia)) (lab_key_in_range 2 ltac:(lia))
                Heq eq_refl) as Hk.
  discriminate Hk.
Defined.

(** X4 on a filter that was cleaned up. *)
Lemma transport_inert_witness :
  let s := set_sockfd (-1) (lab_filter COLO_MODE_PRIMARY COLO_PROXY_RUNNING) in
  let w := lab_world (lab_host 7 9) s [] false (ssize_t_bytes 4 ++ deadbeef) in
  colo_proxy_sock_receive (ext := lab_externals) s w = Returns s w /\
  colo_proxy_sock_send s [deadbeef] w = Returns (s, -1) w.
Proof.
  intros s w.
  destruct (transport_inert_without_connection (ext := lab_externals)
              s [deadbeef] w) as [Hrecv Hsend].
  split.
  - apply Hrecv. cbn. lia.
  - apply Hsend; [left | ]; cbn; lia.
Defined.

(** X6 on a frame that declares four bytes and brings two. *)
Lemma sock_receive_pads_truncated_payload_witness :
  let s := lab_filter COLO_MODE_SECONDARY COLO_PROXY_RUNNING in
  let w := lab_world (lab_host 7 9) s [] false
             (ssize_t_bytes 4 ++ [Byte.xde; Byte.xad]) in
  colo_proxy_sock_receive (ext := lab_externals) s w
    = sock_receive_deliver (ext := lab_externals) s
        [Byte.xde; Byte.xad; Byte.x00; Byte.x00] 4
        (set_trace [CallGMalloc0 4] (set_sock_rx (upd (sock_rx w) 7 []) w)).
Proof.
  intros s w.
  apply (sock_receive_pads_truncated_payload (ext := lab_externals)
           s 4 [Byte.xde; Byte.xad] w).
  - lia.
  - cbn. lia.
  - cbn. lia.
  - cbn. lia.
  - reflexivity.
Defined.

(** X7 on a frame of length zero and on an empty stream. *)
Lemma sock_receive_skips_empty_frame_witness :
  let s := lab_filter COLO_MODE_SECONDARY COLO_PROXY_RUNNING in
  let w := lab_world (lab_host 7 9) s [] false (ssize_t_bytes 0 ++ deadbeef) in
  let w0 := lab_world (lab_host 7 9) s [] false [] in
  colo_proxy_sock_receive (ext := lab_externals) s w
    = Returns s (set_sock_rx (upd (sock_rx w) 7 deadbeef) w) /\
  colo_proxy_sock_receive (ext := lab_externals) s w0 = Returns s w0.
Proof.
  intros s w w0. split.
  - apply (proj1 (sock_receive_skips_empty_frame (ext := lab_externals)
                    s 0 deadbeef w ltac:(cbn; lia))).
    + lia.
    + reflexivity.
  - apply (proj2 (sock_receive_skips_empty_frame (ext := lab_externals)
                    s 0 [] w0 ltac:(cbn; lia))).
    reflexivity.
Defined.

(** X8 on the frames DE AD BE EF and AA. *)
Lemma frames_keep_order_witness :
  let snd_s := lab_filter COLO_MODE_PRIMARY COLO_PROXY_RUNNING in
  let rcv_s := lab_filter COLO_MODE_SECONDARY COLO_PROXY_RUNNING in
  let wa := lab_world (lab_host 7 9) snd_s [] false [] in
  let wire := (ssize_t_bytes 4 ++ deadbeef) ++ (ssize_t_bytes 1 ++ [Byte.xaa]) in
  let wb := lab_world (lab_host 7 9) rcv_s [] false (wire ++ []) in
  (exists wa',
     ('(s, _) <- colo_proxy_sock_send snd_s [deadbeef] ;;
      colo_proxy_sock_send s [[Byte.xaa]]) wa = Returns (snd_s, 1) wa' /\
     sock_tx wa' 7 = [] ++ wire) /\
  (exists wb',
     (s <- colo_proxy_sock_receive (ext := lab_externals) rcv_s ;;
      colo_proxy_sock_receive (ext := lab_externals) s) wb = Returns rcv_s wb' /\
     trace wb' = [CallGMalloc0 4; CallNetQueueSend deadbeef 4;
                  CallGMalloc0 1; CallNetQueueSend [Byte.xaa] 1] /\
     sock_rx wb' 7 = []).
Proof.
  intros snd_s rcv_s wa wire wb.
  destruct (frames_keep_order (ext := lab_externals) snd_s rcv_s
              [deadbeef] [[Byte.xaa]] [] wa wb
              ltac:(cbn; lia) ltac:(cbn; lia)) as [Hsend Hrecv].
  split.
  - apply Hsend; [cbn; lia | reflexivity].
  - apply Hrecv; [cbn; lia | cbn; lia | cbn; lia | reflexivity | reflexivity].
Defined.

(** X9 on a host whose first accept is interrupted, on one that is
    interrupted every time, and on one that is interrupted and then out of
    descriptors (error number 24). *)
Lemma wait_incoming_witness :
  let s := lab_filter COLO_MODE_SECONDARY COLO_PROXY_NONE in
  let w := lab_world (lab_host 7 9) s [] false [] in
  let busy := {| host_connect := fun _ => 7; host_listen := fun _ => 5;
                 host_accept := fun _ => [(-1, EINTR); (-1, EINTR)];
                 link_up := fun _ => true |} in
  let full := {| host_connect := fun _ => 7; host_listen := fun _ => 5;
                 host_accept := fun _ => [(-1, EINTR); (-1, 24)];
                 link_up := fun _ => true |} in
  colo_wait_incoming s w
    = Returns (set_sockfd 9 s, 0)
        (set_trace [CallInetListen (addr s) 5; CallQemuAccept 5 (-1) EINTR;
                    CallQemuAccept 5 9 0; CallCloseSocket 5;
                    CallSetFdHandler 9 true] w) /\
  colo_wait_incoming s (lab_world busy s [] false [])
    = Blocked (set_trace [CallInetListen (addr s) 5; CallQemuAccept 5 (-1) EINTR;
                          CallQemuAccept 5 (-1) EINTR]
                 (lab_world busy s [] false [])) /\
  colo_wait_incoming s (lab_world full s [] false [])
    = Returns (s, -1)
        (set_trace [CallInetListen (addr s) 5; CallQemuAccept 5 (-1) EINTR;
                    CallQemuAccept 5 (-1) 24; CallCloseSocket 5;
                    CallErrorReportStrerror "colo proxy accept failed(%s)" 24]
           (lab_world full s [] false [])).
Proof.
  intros s w busy full.
  assert (Hint : interrupted (-1, EINTR)) by (split; [cbn; lia | reflexivity]).
  split; [ | split].
  - apply (proj1 (wait_incoming_retries_interrupted_accept s w
                    [(-1, EINTR)] 9 0 [] ltac:(cbn; lia)
                    (Forall_cons _ Hint (Forall_nil _)))).
    + reflexivity.
    + intros [Hneg _]. cbn in Hneg. lia.
  - apply (proj2 (wait_incoming_retries_interrupted_accept s
                    (lab_world busy s [] false [])
                    [(-1, EINTR); (-1, EINTR)] 0 0 [] ltac:(cbn; lia)
                    (Forall_cons _ Hint (Forall_cons _ Hint (Forall_nil _))))).
    reflexivity.
  - apply (proj1 (wait_incoming_retries_interrupted_accept s
                    (lab_world full s [] false [])
                    [(-1, EINTR)] (-1) 24 [] ltac:(cbn; lia)
                    (Forall_cons _ Hint (Forall_nil _)))).
    + reflexivity.
    + intros [_ Herr]. cbn in Herr. discriminate Herr.
Defined.

(** X10 on a running primary filter with its socket on descriptor 7. *)
Lemma stop_then_cleanup_witness :
  let nf := lab_filter COLO_MODE_PRIMARY COLO_PROXY_RUNNING in
  let w := lab_world (lab_host 7 9) nf [] false [] in
  exists s' w',
    ('(s, _) <- colo_proxy_stop_one nf COLO_MODE_PRIMARY ;; colo_proxy_cleanup s) w
      = Returns s' w' /\
    sockfd s' = -1 /\
    exists between,
      trace w' = [CallSetFdHandler 7 false; CallCloseSocket 7] ++ between
                 ++ [CallClose 7; CallEventDestroy].
Proof.
  intros nf w.
  destruct (stop_then_cleanup_closes_twice nf w eq_refl ltac:(cbn; lia))
    as (s' & w' & between & Hrun & Hfd & _ & _ & Htr).
  exists s', w'. split; [exact Hrun | ]. split; [exact Hfd | ].
  exists between. exact Htr.
Defined.


(** X12 on a machine whose only filter is a buffer filter. *)
Lemma start_stop_without_proxy_filter_witness :
  let w := set_net_filters [buffer_filter]
             (lab_world (lab_host 7 9) buffer_filter [] false []) in
  colo_proxy_start COLO_MODE_PRIMARY w = Returns 0 w /\
  colo_proxy_stop COLO_MODE_PRIMARY w = Returns tt w.
Proof.
  intros w. apply start_stop_without_proxy_filter.
  constructor; [reflexivity | constructor].
Defined.

(** X13 on a primary filter that is started and stopped as a secondary. *)
Lemma start_stop_in_other_mode_witness :
  let nf := lab_filter COLO_MODE_PRIMARY COLO_PROXY_NONE in
  let w := lab_world (lab_host 7 9) nf [] false [] in
  colo_proxy_start COLO_MODE_SECONDARY w = AssertionFailed w /\
  colo_proxy_stop COLO_MODE_SECONDARY w = AssertionFailed w.
Proof.
  intros nf w.
  apply (start_stop_in_other_mode_aborts COLO_MODE_SECONDARY [buffer_filter] [] nf w).
  - reflexivity.
  - constructor; [reflexivity | constructor].
  - reflexivity.
  - discriminate.
Defined.

(** X14 on the start of a primary filter and on a packet that arrives,
    with one flow in the table. *)
Lemma table_kept_witness :
  let nf := lab_filter COLO_MODE_PRIMARY COLO_PROXY_RUNNING in
  let w := lab_world (lab_host 7 9) nf [(lab_key 1, diverging_flow)] false [] in
  colo_conn_hash (outcome_world (run_op (ext := lab_externals)
                                   (OpStart COLO_MODE_PRIMARY) w))
  = [(lab_key 1, diverging_flow)] /\
  colo_conn_hash (outcome_world (run_op (ext := lab_externals)
                                   (OpReceiveIov 1 1 0 [deadbeef] None) w))
  = [(lab_key 1, diverging_flow)].
Proof.
  intros nf w. split.
  - apply (table_kept_by_poll_cleanup_start_send_arrival (ext := lab_externals)
             (OpStart COLO_MODE_PRIMARY) w).
    reflexivity.
  - apply (table_kept_by_poll_cleanup_start_send_arrival (ext := lab_externals)
             (OpReceiveIov 1 1 0 [deadbeef] None) w).
    reflexivity.
Defined.

(** X15 on a filter without address and on a configured one. *)
Lemma setup_rejects_or_resets_witness :
  let nf := lab_filter COLO_MODE_PRIMARY COLO_PROXY_NONE in
  let w := lab_world (lab_host 7 9) nf [(lab_key 1, diverging_flow)] true [] in
  (exists e, colo_proxy_setup buffer_filter w = Returns (buffer_filter, Some e) w) /\
  (exists s' w',
     colo_proxy_setup nf w = Returns (s', None) w' /\
     sockfd s' = -1 /\ colo_conn_hash w' = [] /\ colo_do_checkpoint w' = false /\
     colo_proxy_receive_iov s' 1 0 [deadbeef] None w' = Returns (s', 0) w').
Proof.
  intros nf w. split.
  - apply (proj1 (setup_rejects_or_resets (ext := lab_externals) buffer_filter w)).
    left. reflexivity.
  - destruct (proj2 (setup_rejects_or_resets (ext := lab_externals) nf w)
                ltac:(discriminate) eq_refl)
      as (s' & w' & Hrun & Hfd & _ & _ & _ & _ & _ & _ & Hhash & Hflag & _ & _
          & _ & Hiov).
    exists s', w'. split; [exact Hrun | ]. split; [exact Hfd | ].
    split; [exact Hhash | ]. split; [exact Hflag | ].
    apply Hiov. discriminate.
Defined.


(** X17 on the packet DE AD BE EF. *)
Lemma dump_packet_witness :
  exists out,
    colo_proxy_dump_packet (lab_packet deadbeef) = Some out /\
    Z.of_nat (String.length out) = 13.
Proof.
  destruct (dump_packet_is_lossless (lab_packet deadbeef) ltac:(cbn; lia))
    as (out & Hrun & Hlen & _).
  exists out. split; [exact Hrun | exact Hlen].
Defined.
